(** * Conway's Game of Life on a torus: a shallow embedding of [main.py]

    The Python functions [create_initial_grid], [print_grid],
    [create_next_grid], [get_live_neighbors], [grid_changing] and the
    generation loop of [run_game] are embedded as Rocq functions.

    A grid is a Python list of row lists.  Rows are mutable objects that two
    grids could share, so rows live in a store (a finite map from locations to
    lists of integers) and a grid is the list of the locations of its rows.
    Python exceptions are results of type [result]. *)

From stdpp Require Import gmap list numbers strings pretty.

Local Open Scope Z_scope.

(** ** Python runtime: exceptions, [%], subscripts, [range] *)

Inductive exn := ZeroDivisionError | IndexError.

Inductive result (A : Type) :=
| Ok (a : A)
| Raise (e : exn).

Arguments Ok {A} a.
Arguments Raise {A} e.

Definition bind {A B} (m : result A) (k : A → result B) : result B :=
  match m with
  | Ok a => k a
  | Raise e => Raise e
  end.

Notation "x <~ m ; k" := (bind m (λ x, k))
  (at level 100, m at next level, k at level 200, right associativity,
   format "'[v' x  <~  m ; '/' k ']'").

(** [a % b] on Python integers: the result has the sign of [b], as
    [Z.modulo] does, and a zero divisor raises. *)
Definition py_mod (a b : Z) : result Z :=
  if decide (b = 0) then Raise ZeroDivisionError else Ok (a `mod` b).

(** The position designated by a Python subscript [i] in a list of length
    [len]: negative subscripts count from the end. *)
Definition py_index (len : nat) (i : Z) : result nat :=
  if decide (0 ≤ i < Z.of_nat len) then Ok (Z.to_nat i)
  else if decide (- Z.of_nat len ≤ i < 0) then Ok (Z.to_nat (Z.of_nat len + i))
  else Raise IndexError.

(** [l[i]] *)
Definition py_getitem {A} (l : list A) (i : Z) : result A :=
  k <~ py_index (length l) i;
  match l !! k with
  | Some x => Ok x
  | None => Raise IndexError
  end.

(** [l[i] = x] *)
Definition py_setitem {A} (l : list A) (i : Z) (x : A) : result (list A) :=
  k <~ py_index (length l) i;
  Ok (<[k := x]> l).

(** [range(lo, hi)] *)
Definition range (lo hi : Z) : list Z := seqZ lo (hi - lo).

(** [for x in xs: s = body(x, s)], stopping at the first exception. *)
Fixpoint for_each {S} (xs : list Z) (body : Z → S → result S) (s : S)
  : result S :=
  match xs with
  | [] => Ok s
  | x :: xs' => s' <~ body x s; for_each xs' body s'
  end.

(** A [for] loop over a read-only body that may [return]: [Some r] is the
    value returned from inside the loop, [None] means the loop ran to its
    end. *)
Fixpoint for_each_ret {R} (xs : list Z) (body : Z → result (option R))
  : result (option R) :=
  match xs with
  | [] => Ok None
  | x :: xs' =>
      o <~ body x;
      match o with
      | Some r => Ok (Some r)
      | None => for_each_ret xs' body
      end
  end.

(** ** Store and grids *)

Abbreviation loc := nat (only parsing).
Abbreviation heap := (gmap nat (list Z)) (only parsing).
Abbreviation grid := (list nat) (only parsing).

(** The row object at a location.  Every location a grid of the program holds
    is allocated; a location outside the store reads as the empty row. *)
Definition row_at (h : heap) (l : loc) : list Z := h !!! l.

(** [grid[r][c]] *)
Definition load (h : heap) (g : grid) (r c : Z) : result Z :=
  l <~ py_getitem g r;
  py_getitem (row_at h l) c.

(** [grid[r][c] = v]: the row object [grid[r]] is updated in place. *)
Definition store (h : heap) (g : grid) (r c v : Z) : result heap :=
  l <~ py_getitem g r;
  rw <~ py_setitem (row_at h l) c v;
  Ok (<[l := rw]> h).

(** ** [get_live_neighbors] *)

(** The subscript expression [grid[((row + i) % rows)][((col + j) % cols)]],
    evaluated left to right. *)
Definition wrapped_cell (h : heap) (row col rows cols : Z) (g : grid)
    (i j : Z) : result Z :=
  r <~ py_mod (row + i) rows;
  l <~ py_getitem g r;
  c <~ py_mod (col + j) cols;
  py_getitem (row_at h l) c.

Definition get_live_neighbors (h : heap) (row col rows cols : Z) (g : grid)
  : result Z :=
  for_each (range (-1) 2) (λ i life_sum,
    for_each (range (-1) 2) (λ j life_sum,
      if negb ((i =? 0) && (j =? 0)) then
        v <~ wrapped_cell h row col rows cols g i j;
        Ok (life_sum + v)
      else Ok life_sum) life_sum) 0.

(** ** [create_next_grid] *)

(** The body of the inner loop: the cell at [(row, col)] of [next_grid] is
    decided from [g]. *)
Definition update_cell (rows cols : Z) (g next_grid : grid) (row col : Z)
    (h : heap) : result heap :=
  live_neighbors <~ get_live_neighbors h row col rows cols g;
  if (live_neighbors <? 2) || (live_neighbors >? 3) then
    store h next_grid row col 0
  else
    birth <~ (if live_neighbors =? 3 then
                s <~ load h g row col; Ok (s =? 0)
              else Ok false);
    if birth then store h next_grid row col 1
    else
      s <~ load h g row col;
      store h next_grid row col s.

Definition create_next_grid (h : heap) (rows cols : Z) (g next_grid : grid)
  : result heap :=
  for_each (range 0 rows) (λ row h,
    for_each (range 0 cols) (update_cell rows cols g next_grid row) h) h.

(** ** [grid_changing] *)

Definition grid_changing (h : heap) (rows cols : Z) (g next_grid : grid)
  : result bool :=
  o <~ for_each_ret (range 0 rows) (λ row,
         for_each_ret (range 0 cols) (λ col,
           a <~ load h g row col;
           b <~ load h next_grid row col;
           if negb (a =? b) then Ok (Some true) else Ok None));
  Ok (default false o).

(** ** [create_initial_grid] *)

(** The random source: [randint k] is the value of the [k]-th call of
    [random.randint(0, 7)] in the run.  The state of the generator is the
    number of draws made so far. *)
Section Seeding.
Variable randint : nat → Z.

(** The inner loop: one row of cells, each live when its draw is 0. *)
Definition create_initial_row (cols : Z) (k : nat) : list Z * nat :=
  foldl (λ '(grid_rows, k) (col : Z),
           if randint k =? 0 then (grid_rows ++ [1], S k)
           else (grid_rows ++ [0], S k))
        ([], k) (range 0 cols).

(** [grid += [grid_rows]]: the finished row becomes a fresh object. *)
Definition alloc (h : heap) (rw : list Z) : loc * heap :=
  let l := fresh (dom h) in (l, <[l := rw]> h).

Definition create_initial_grid (rows cols : Z) (h : heap) (k : nat)
  : grid * heap * nat :=
  foldl (λ '(g, h, k) (row : Z),
           let '(grid_rows, k) := create_initial_row cols k in
           let '(l, h) := alloc h grid_rows in
           (g ++ [l], h, k))
        ([], h, k) (range 0 rows).
End Seeding.

(** ** [print_grid] and the generation loop of [run_game] *)

(** What one call of [print_grid] sends to the console: the generation
    number of the header line and the text of the grid that follows it.
    Clearing the console is left out. *)
Record frame := Frame { frame_generation : Z; frame_text : string }.

(** The string ["\n\r"] that ends each line of the grid. *)
Definition end_of_line : string :=
  String (Ascii.ascii_of_nat 10) (String (Ascii.ascii_of_nat 13) "").

Definition print_grid (h : heap) (rows cols : Z) (g : grid) (generation : Z)
  : result frame :=
  output_str <~ for_each (range 0 rows) (λ row output_str,
      output_str <~ for_each (range 0 cols) (λ col output_str,
          v <~ load h g row col;
          if v =? 0 then Ok (output_str +:+ ". ")
          else Ok (output_str +:+ "@ ")) output_str;
      Ok (output_str +:+ end_of_line)) "";
  Ok (Frame generation output_str).

(** The variables of [run_game] that the loop updates, and the frames
    printed so far. *)
Record game := Game {
  store_of : heap;
  current_generation : grid;
  next_generation : grid;
  gen : Z;
  printed : list frame
}.

(** [for gen in range(1, generations + 1): ...]; [break] leaves the loop
    with [gen] holding the value of the interrupted iteration.  The pause
    between two generations changes no variable and is left out; the swap of
    the two grid variables is the swap of the two fields. *)
Fixpoint generation_loop (rows cols : Z) (gens : list Z) (st : game)
  : result game :=
  match gens with
  | [] => Ok st
  | n :: gens' =>
      changing <~ grid_changing (store_of st) rows cols
                    (current_generation st) (next_generation st);
      if negb changing then
        Ok (Game (store_of st) (current_generation st) (next_generation st)
                 n (printed st))
      else
        f <~ print_grid (store_of st) rows cols (current_generation st) n;
        h <~ create_next_grid (store_of st) rows cols
               (current_generation st) (next_generation st);
        generation_loop rows cols gens'
          (Game h (next_generation st) (current_generation st) n
                (printed st ++ [f]))
  end.

(** The state of [run_game] when it enters the loop: two grids seeded one
    after the other in an empty store, and [gen = 1]. *)
Definition initial_game (randint : nat → Z) (rows cols : Z) : game :=
  let '(cur, h, k) := create_initial_grid randint rows cols ∅ 0%nat in
  let '(nxt, h, k) := create_initial_grid randint rows cols h k in
  Game h cur nxt 1 [].

(** [run_game] after its three prompts: the frames printed during the run,
    the last of them by the [print_grid] that follows the loop. *)
Definition run_game (randint : nat → Z) (rows cols generations : Z)
  : result (list frame) :=
  st <~ generation_loop rows cols (range 1 (generations + 1))
          (initial_game randint rows cols);
  f <~ print_grid (store_of st) rows cols (current_generation st) (gen st);
  Ok (printed st ++ [f]).

(** The generation numbers of the frames printed so far. *)
Definition labels (st : game) : list Z := frame_generation <$> printed st.

(** ** Snapshots: the contents of a grid in a store *)

(** The rows of a grid, read out of the store. *)
Definition rows_of (h : heap) (g : grid) : list (list Z) := row_at h <$> g.

(** The cell at an in-range position of a snapshot. *)
Definition cell (m : list (list Z)) (r c : Z) : Z :=
  default 0 (rw ← m !! Z.to_nat r; rw !! Z.to_nat c).

(** A snapshot of [rows] rows of [cols] cells each. *)
Definition shape (rows cols : Z) (m : list (list Z)) : Prop :=
  length m = Z.to_nat rows ∧ Forall (λ rw, length rw = Z.to_nat cols) m.

(** Every cell is 0 (dead) or 1 (alive). *)
Definition binary (m : list (list Z)) : Prop :=
  Forall (Forall (λ v, v = 0 ∨ v = 1)) m.

(** No row object of [g] is a row object of [g']: writing through [g']
    cannot be seen through [g]. *)
Definition separate (g g' : grid) : Prop := Forall (λ l, l ∉ g) g'.

#[global] Instance shape_dec rows cols m : Decision (shape rows cols m).
Proof. unfold shape. apply _. Defined.

#[global] Instance binary_dec m : Decision (binary m).
Proof. unfold binary. apply _. Defined.

#[global] Instance separate_dec g g' : Decision (separate g g').
Proof. unfold separate. apply _. Defined.

(** ** The rule of the game, on snapshots *)

(** The eight offsets of [get_live_neighbors], in the order of its loops. *)
Definition offsets : list (Z * Z) :=
  [(-1, -1); (-1, 0); (-1, 1); (0, -1); (0, 1); (1, -1); (1, 0); (1, 1)].

(** The positions at the eight offsets from [(row, col)], each coordinate
    wrapped modulo the size of the grid. *)
Definition neighbor_positions (rows cols row col : Z) : list (Z * Z) :=
  (λ d, ((row + d.1) `mod` rows, (col + d.2) `mod` cols)) <$> offsets.

(** How many of the listed positions hold an alive cell. *)
Definition alive_among (m : list (list Z)) (ps : list (Z * Z)) : nat :=
  length (filter (λ p, cell m p.1 p.2 = 1) ps).

(** The sum that [get_live_neighbors] accumulates. *)
Definition live_sum (m : list (list Z)) (rows cols row col : Z) : Z :=
  foldl (λ acc p, acc + cell m p.1 p.2) 0 (neighbor_positions rows cols row col).

(** The value [create_next_grid] writes for [n] live neighbours and state
    [s]. *)
Definition next_state (n s : Z) : Z :=
  if (n <? 2) || (n >? 3) then 0
  else if (n =? 3) && (s =? 0) then 1
  else s.

(** The rule B3/S23 as a relation between the number [n] of live neighbours,
    the current state [s] and the next state [v]: fewer than 2 or more than
    3 neighbours give a dead cell, exactly 3 a live one, exactly 2 leave the
    state as it is. *)
Definition b3s23 (n s v : Z) : Prop :=
  (n < 2 ∨ n > 3 → v = 0) ∧ (n = 3 → v = 1) ∧ (n = 2 → v = s).

(** The value written at [(row, col)] when the current grid reads as [m]. *)
Definition new_cell (m : list (list Z)) (rows cols row col : Z) : Z :=
  next_state (live_sum m rows cols row col) (cell m row col).

Definition next_row (m : list (list Z)) (rows cols row : Z) : list Z :=
  new_cell m rows cols row <$> range 0 cols.

Definition next_snapshot (m : list (list Z)) (rows cols : Z) : list (list Z) :=
  next_row m rows cols <$> range 0 rows.

(** Whether some in-range cell differs between two snapshots. *)
Definition differ (rows cols : Z) (a b : list (list Z)) : bool :=
  existsb (λ r, existsb (λ c, negb (cell a r c =? cell b r c)) (range 0 cols))
          (range 0 rows).

(** The invariant of the loops of [create_next_grid] over a store [h]: the
    current grid [g] still reads as [m], and the rows of the next grid keep
    their length. *)
Definition fits (cols : Z) (g ng : grid) (m : list (list Z)) (h : heap)
  : Prop :=
  rows_of h g = m ∧ Forall (λ l, length (row_at h l) = Z.to_nat cols) ng.

(** Two grids of [rows] by [cols] cells that share no row object, the rows of
    the second being pairwise distinct objects. *)
Definition distinct_buffers (h : heap) (rows cols : Z) (g ng : grid) : Prop :=
  shape rows cols (rows_of h g) ∧ shape rows cols (rows_of h ng) ∧
  separate g ng ∧ NoDup ng.

#[global] Instance distinct_buffers_dec h rows cols g ng :
  Decision (distinct_buffers h rows cols g ng).
Proof. unfold distinct_buffers. apply _. Defined.

(** What [create_initial_grid] establishes, starting from a store [h0]: the
    grid [g] is made of pairwise distinct row objects, all new with respect
    to [h0], each a row of [cols] binary cells, and the objects of [h0] are
    untouched in the new store [h]. *)
Definition seeded (h0 : heap) (cols : Z) (g : grid) (h : heap) : Prop :=
  NoDup g ∧
  Forall (λ l, l ∈ dom h ∧ l ∉ dom h0) g ∧
  Forall (λ rw, length rw = Z.to_nat cols ∧ Forall (λ v, v = 0 ∨ v = 1) rw)
         (rows_of h g) ∧
  (∀ l, l ∈ dom h0 → h !! l = h0 !! l) ∧
  dom h0 ⊆ dom h.

(** The invariant of the loop of [run_game]: two distinct buffers of binary
    cells, each made of pairwise distinct rows. *)
Definition running (rows cols : Z) (st : game) : Prop :=
  distinct_buffers (store_of st) rows cols
    (current_generation st) (next_generation st) ∧
  NoDup (current_generation st) ∧
  binary (rows_of (store_of st) (current_generation st)) ∧
  binary (rows_of (store_of st) (next_generation st)).

(** A run with one live cell in the current grid, an empty next grid, and a
    limit of one generation: the first draw is 0, every later draw is not. *)
Definition one_cell_draws (k : nat) : Z :=
  match k with
  | O => 0
  | S _ => 1
  end.

(** ** Test grids *)

(** A store holding the rows of [m] at the locations [base], [base + 1], ... *)
Definition rows_from (base : nat) (m : list (list Z)) : heap :=
  list_to_map (imap (λ i rw, ((base + i)%nat, rw)) m).

(** Two buffers in one store: the rows of [a] at [0 ..], those of [b] after
    them. *)
Definition two_grids (a b : list (list Z)) : heap :=
  rows_from 0 a ∪ rows_from (length a) b.

Definition first_grid (a : list (list Z)) : grid := seq 0 (length a).

Definition second_grid (a b : list (list Z)) : grid :=
  seq (length a) (length b).

(** A vertical line on a 3 by 3 torus. *)
Definition line3 : list (list Z) := [[0; 1; 0]; [0; 1; 0]; [0; 1; 0]].

(** Arbitrary leftovers in a 3 by 3 buffer. *)
Definition junk3 : list (list Z) := [[5; 5; 5]; [0; 7; 1]; [1; 1; -2]].

(** The 2 by 2 block at rows 1-2, columns 1-2 of a 5 by 5 torus. *)
Definition block5 : list (list Z) :=
  [[0; 0; 0; 0; 0];
   [0; 1; 1; 0; 0];
   [0; 1; 1; 0; 0];
   [0; 0; 0; 0; 0];
   [0; 0; 0; 0; 0]].

(** The horizontal blinker at row 2, columns 1-3 of a 5 by 5 torus. *)
Definition blinker5 : list (list Z) :=
  [[0; 0; 0; 0; 0];
   [0; 0; 0; 0; 0];
   [0; 1; 1; 1; 0];
   [0; 0; 0; 0; 0];
   [0; 0; 0; 0; 0]].

(** The vertical blinker at column 2, rows 1-3 of a 5 by 5 torus. *)
Definition blinker5_turned : list (list Z) :=
  [[0; 0; 0; 0; 0];
   [0; 0; 1; 0; 0];
   [0; 0; 1; 0; 0];
   [0; 0; 1; 0; 0];
   [0; 0; 0; 0; 0]].

(** Arbitrary leftovers in a 5 by 5 buffer. *)
Definition junk5 : list (list Z) :=
  [[1; 0; 1; 0; 1];
   [9; 9; 9; 9; 9];
   [0; 0; 0; 0; 0];
   [1; 1; 1; 1; 1];
   [0; -1; 0; -1; 0]].

(** ** Uniform grids, shifts and generations *)

(** The snapshot of [rows] by [cols] cells that all hold [v]. *)
Definition uniform (rows cols v : Z) : list (list Z) :=
  replicate (Z.to_nat rows) (replicate (Z.to_nat cols) v).

(** A snapshot moved on the torus: the cell at [(r, c)] of the result is the
    cell at [(r + a, c + b)] of [m], coordinates wrapped. *)
Definition shift (a b : nat) (m : list (list Z)) : list (list Z) :=
  rotate a (rotate b <$> m).

(** The snapshot [n] generations after [m]. *)
Definition generation (rows cols : Z) (m : list (list Z)) (n : nat)
  : list (list Z) :=
  Nat.iter n (λ m, next_snapshot m rows cols) m.

(** The row that [create_initial_grid] builds from the draws number [k],
    [k + 1], ...: a cell is alive when its draw is 0. *)
Definition drawn_row (randint : nat → Z) (cols : Z) (k : nat) : list Z :=
  (λ j, if randint (k + j)%nat =? 0 then 1 else 0) <$> seq 0 (Z.to_nat cols).

(** The grid built row after row from the draws number [k], [k + 1], ... *)
Definition drawn_grid (randint : nat → Z) (rows cols : Z) (k : nat)
  : list (list Z) :=
  (λ i, drawn_row randint cols (k + i * Z.to_nat cols)%nat)
    <$> seq 0 (Z.to_nat rows).

(** ** The text of a frame *)

(** The two characters that [print_grid] writes for a cell. *)
Definition glyph (v : Z) : string := if v =? 0 then ". " else "@ ".

(** One line of the text: the cells of a row, then the end of the line. *)
Definition picture_line (rw : list Z) : string :=
  foldr (λ v s, glyph v +:+ s) end_of_line rw.

(** The text of a snapshot, line after line. *)
Definition picture (m : list (list Z)) : string :=
  foldr (λ rw s, picture_line rw +:+ s) "" m.

(** ** The console: [clear_console], [resize_console], what [print_grid]
    writes *)

(** What a function asks of the console: [os.system(command)],
    [sys.stdout.write(text)] or [print(text)]. *)
Inductive console_action :=
| System (command : string)
| Write (text : string)
| Print (text : string).

(** [platform.startswith(p)] *)
Definition startswith (p platform : string) : bool := String.prefix p platform.

Definition clear_console (platform : string) : console_action :=
  if startswith "win" platform then System "cls"
  else if startswith "linux" platform then System "clear"
  else Print ("Unable to clear terminal. Your operating system is not supported."
              +:+ end_of_line).

(** The escape character ["\x1b"]. *)
Definition escape : string := String (Ascii.ascii_of_nat 27) "".

(** Integers are formatted in decimal, as [pretty] does. *)
Definition resize_console (platform : string) (rows cols : Z)
  : console_action :=
  let cols := if cols <? 32 then 32 else cols in
  if startswith "win" platform then
    System ("mode con: cols=" +:+ pretty (cols + cols)
            +:+ " lines=" +:+ pretty (rows + 5))
  else if startswith "linux" platform then
    Write (escape +:+ "[8;" +:+ pretty (rows + 3) +:+ ";"
           +:+ pretty (cols + cols) +:+ "t")
  else Print ("Unable to resize terminal. Your operating system is not supported."
              +:+ end_of_line).

(** The first line that [print_grid] puts in its output string. *)
Definition title (generation : Z) : string :=
  "Generation " +:+ pretty generation
  +:+ " - To exit the program early press <Ctrl-C>".

(** The whole string that [print_grid] sends to the console: the title
    line, the lines of the grid, and the [" "] that [print] is told to end
    with. *)
Definition print_grid_output (h : heap) (rows cols : Z) (g : grid)
    (generation : Z) : result string :=
  output_str <~ for_each (range 0 rows) (λ row output_str,
      output_str <~ for_each (range 0 cols) (λ col output_str,
          v <~ load h g row col;
          if v =? 0 then Ok (output_str +:+ ". ")
          else Ok (output_str +:+ "@ ")) output_str;
      Ok (output_str +:+ end_of_line)) ("" +:+ title generation +:+ end_of_line);
  Ok (output_str +:+ " ").

(** ** [get_integer_value] and the prompts of [run_game] *)

(** Reading from the console either returns a value, with the lines not yet
    read and everything written so far, or meets the end of the input
    ([input] raises [EOFError]). *)
Inductive reading (A : Type) :=
| Entered (value : A) (rest : list string) (written : list string)
| EndOfInput (written : list string).

Arguments Entered {A} value rest written.
Arguments EndOfInput {A} written.

Section Prompts.
(** [int(s)] on a line typed by the user: [None] stands for [ValueError]. *)
Variable int : string → option Z.

(** One turn of the [while True] loop for each line typed; [written] collects
    the prompts and the messages. *)
Fixpoint get_integer_value (prompt : string) (low high : Z)
    (lines : list string) (written : list string) : reading Z :=
  match lines with
  | [] => EndOfInput (written ++ [prompt])
  | line :: lines' =>
      match int line with
      | None =>
          get_integer_value prompt low high lines'
            (written ++ [prompt; "Input was not a valid integer value."])
      | Some value =>
          if (value <? low) || (value >? high) then
            get_integer_value prompt low high lines'
              (written ++ [prompt;
                 "Input was not inside the bounds (value <= " +:+ pretty low
                 +:+ " or value >= " +:+ pretty high +:+ ")."])
          else Entered value lines' (written ++ [prompt])
      end
  end.

End Prompts.

(** A line that [get_integer_value] does not accept: not an integer, or an
    integer outside [low .. high]. *)
Definition rejected (int : string → option Z) (low high : Z) (line : string)
  : Prop :=
  match int line with
  | None => True
  | Some value => value < low ∨ high < value
  end.

(** A reading of typed lines for the examples: three decimal numbers are
    integers, everything else is not. *)
Definition sample_int (line : string) : option Z :=
  if decide (line = "7") then Some 7
  else if decide (line = "12") then Some 12
  else if decide (line = "40") then Some 40
  else None.

(** * Properties *)

(** ** Subscripts and wrapped coordinates *)

Lemma py_index_in_range len i :
  0 ≤ i < Z.of_nat len → py_index len i = Ok (Z.to_nat i).
Proof. intros H. unfold py_index. by rewrite decide_True. Qed.

Lemma py_getitem_in_range {A} (l : list A) i x :
  0 ≤ i → l !! Z.to_nat i = Some x → py_getitem l i = Ok x.
Proof.
  intros Hi Hx. unfold py_getitem.
  rewrite py_index_in_range; [simpl; by rewrite Hx |].
  apply lookup_lt_Some in Hx. lia.
Qed.

Lemma py_setitem_in_range {A} (l : list A) i x :
  0 ≤ i < Z.of_nat (length l) →
  py_setitem l i x = Ok (<[Z.to_nat i := x]> l).
Proof. intros H. unfold py_setitem. by rewrite py_index_in_range. Qed.

Lemma py_mod_pos a b : 0 < b → py_mod a b = Ok (a `mod` b).
Proof. intros H. unfold py_mod. rewrite decide_False; [done | lia]. Qed.

Section Snapshot.
Context (h : heap) (g : grid) (rows cols : Z).
Hypothesis Hshape : shape rows cols (rows_of h g).

Lemma shape_row r :
  0 ≤ r < rows →
  ∃ l, g !! Z.to_nat r = Some l ∧ length (row_at h l) = Z.to_nat cols.
Proof using Hshape.
  intros Hr. destruct Hshape as [Hlen Hall].
  unfold rows_of in Hlen. rewrite length_fmap in Hlen.
  destruct (lookup_lt_is_Some_2 g (Z.to_nat r)) as [l Hl]; [lia |].
  exists l. split; [done |].
  rewrite Forall_lookup in Hall. apply (Hall (Z.to_nat r)).
  unfold rows_of. by rewrite list_lookup_fmap, Hl.
Qed.

Lemma load_in_range r c :
  0 ≤ r < rows → 0 ≤ c < cols → load h g r c = Ok (cell (rows_of h g) r c).
Proof using Hshape.
  intros Hr Hc. destruct (shape_row r Hr) as (l & Hl & Hlen).
  destruct (lookup_lt_is_Some_2 (row_at h l) (Z.to_nat c)) as [v Hv]; [lia |].
  unfold load. rewrite (py_getitem_in_range g r l) by (done || lia). simpl.
  rewrite (py_getitem_in_range _ c v) by (done || lia).
  unfold cell, rows_of. rewrite list_lookup_fmap, Hl. simpl. by rewrite Hv.
Qed.

Lemma wrapped_cell_in_range row col i j :
  0 < rows → 0 < cols →
  wrapped_cell h row col rows cols g i j =
    Ok (cell (rows_of h g) ((row + i) `mod` rows) ((col + j) `mod` cols)).
Proof using Hshape.
  intros Hrows Hcols.
  pose proof (Z.mod_pos_bound (row + i) rows Hrows) as Hr.
  pose proof (Z.mod_pos_bound (col + j) cols Hcols) as Hc.
  pose proof (load_in_range _ _ Hr Hc) as Hload.
  unfold wrapped_cell, load in *. rewrite py_mod_pos by done. cbn [bind].
  destruct (py_getitem g ((row + i) `mod` rows)) as [l | e]; cbn [bind] in *;
    [| done].
  by rewrite py_mod_pos.
Qed.

Lemma get_live_neighbors_sum row col :
  0 < rows → 0 < cols →
  get_live_neighbors h row col rows cols g =
    Ok (live_sum (rows_of h g) rows cols row col).
Proof using Hshape.
  intros Hrows Hcols. unfold get_live_neighbors, live_sum.
  change (range (-1) 2) with [-1; 0; 1].
  cbn [for_each negb andb Z.eqb Pos.eqb].
  rewrite !wrapped_cell_in_range by done. reflexivity.
Qed.
End Snapshot.

(** ** Counting neighbours *)

Lemma binary_cell m r c : binary m → cell m r c = 0 ∨ cell m r c = 1.
Proof.
  intros Hb. unfold cell.
  destruct (m !! Z.to_nat r) as [rw |] eqn:Hrw; simpl; [| by left].
  destruct (rw !! Z.to_nat c) as [v |] eqn:Hv; simpl; [| by left].
  unfold binary in Hb. rewrite Forall_lookup in Hb.
  specialize (Hb _ _ Hrw). rewrite Forall_lookup in Hb. exact (Hb _ _ Hv).
Qed.

Lemma sum_of_bits {A} (f : A → Z) (ps : list A) (a : Z) :
  (∀ p, f p = 0 ∨ f p = 1) →
  foldl (λ acc p, acc + f p) a ps =
    a + Z.of_nat (length (filter (λ p, f p = 1) ps)).
Proof.
  intros Hf. revert a. induction ps as [| p ps IH]; intros a; simpl.
  - lia.
  - rewrite IH. rewrite filter_cons. destruct (Hf p) as [H0 | H1].
    + rewrite decide_False by lia. lia.
    + rewrite decide_True by done. simpl. lia.
Qed.

Lemma live_sum_alive_among m rows cols row col :
  binary m →
  live_sum m rows cols row col =
    Z.of_nat (alive_among m (neighbor_positions rows cols row col)).
Proof.
  intros Hb. unfold live_sum, alive_among.
  rewrite (sum_of_bits (λ p, cell m p.1 p.2)); [lia |].
  intros p. by apply binary_cell.
Qed.

Lemma neighbor_positions_mod rows cols row col :
  neighbor_positions rows cols (row `mod` rows) (col `mod` cols) =
    neighbor_positions rows cols row col.
Proof.
  unfold neighbor_positions. apply list_fmap_ext. intros _ [i j] _. simpl.
  by rewrite !Zplus_mod_idemp_l.
Qed.

(** ** Writing through a grid *)

Lemma store_in_range h (g : grid) r c v l :
  0 ≤ r → g !! Z.to_nat r = Some l →
  0 ≤ c < Z.of_nat (length (row_at h l)) →
  store h g r c v = Ok (<[l := <[Z.to_nat c := v]> (row_at h l)]> h).
Proof.
  intros Hr Hl Hc. unfold store.
  rewrite (py_getitem_in_range g r l) by done. cbn [bind].
  by rewrite py_setitem_in_range.
Qed.

Lemma rows_of_agree (h h' : heap) (g : grid) :
  (∀ l, l ∈ g → h' !! l = h !! l) → rows_of h' g = rows_of h g.
Proof.
  intros Hag. unfold rows_of. apply list_fmap_ext. intros i l Hl.
  unfold row_at. rewrite !lookup_total_alt.
  by rewrite Hag by (by eapply list_elem_of_lookup_2).
Qed.

Lemma row_at_agree (h h' : heap) l : h' !! l = h !! l → row_at h' l = row_at h l.
Proof. intros H. unfold row_at. by rewrite !lookup_total_alt, H. Qed.

Lemma row_at_insert (h : heap) l rw : row_at (<[l := rw]> h) l = rw.
Proof. unfold row_at. by rewrite lookup_total_insert_eq. Qed.

(** ** [create_next_grid] computes the next snapshot *)

Section NextGrid.
Context (rows cols : Z) (g ng : grid) (m : list (list Z)).
Hypothesis Hm : shape rows cols m.
Hypothesis Hsep : separate g ng.
Hypothesis Hng : length ng = Z.to_nat rows.

Lemma separate_lookup r l : ng !! r = Some l → l ∉ g.
Proof.
  intros Hl. unfold separate in Hsep. rewrite Forall_lookup in Hsep.
  by apply (Hsep r).
Qed.

Lemma fits_write h r l rw :
  fits cols g ng m h → ng !! r = Some l → length rw = Z.to_nat cols →
  fits cols g ng m (<[l := rw]> h).
Proof.
  intros [Hg Hrows] Hl Hrw. split.
  - rewrite <- Hg. apply rows_of_agree. intros l' Hl'.
    apply lookup_insert_ne. intros ->. by apply (separate_lookup r l').
  - apply Forall_forall. intros l' Hl'. destruct (decide (l' = l)) as [-> |].
    + by rewrite row_at_insert.
    + rewrite (row_at_agree h) by (by apply lookup_insert_ne).
      rewrite Forall_forall in Hrows. by apply Hrows.
Qed.

Lemma update_cell_ok h row col l :
  fits cols g ng m h → 0 ≤ row < rows → 0 ≤ col < cols →
  ng !! Z.to_nat row = Some l →
  update_cell rows cols g ng row col h =
    Ok (<[l := <[Z.to_nat col := new_cell m rows cols row col]> (row_at h l)]> h).
Proof.
  intros [Hg Hrows] Hr Hc Hl.
  assert (shape rows cols (rows_of h g)) as Hshape by (by rewrite Hg).
  assert (length (row_at h l) = Z.to_nat cols) as Hlen.
  { rewrite Forall_lookup in Hrows. by apply (Hrows _ _ Hl). }
  assert (∀ v, store h ng row col v =
            Ok (<[l := <[Z.to_nat col := v]> (row_at h l)]> h)) as Hstore.
  { intros v. apply store_in_range; [lia | done | lia]. }
  unfold update_cell, new_cell, next_state.
  rewrite (get_live_neighbors_sum h g rows cols Hshape) by lia.
  cbn [bind]. rewrite Hg.
  destruct ((live_sum m rows cols row col <? 2)
            || (live_sum m rows cols row col >? 3)); [apply Hstore |].
  rewrite (load_in_range h g rows cols Hshape) by done. rewrite Hg.
  destruct (live_sum m rows cols row col =? 3); cbn [bind andb].
  - destruct (cell m row col =? 0); cbn [bind]; apply Hstore.
  - apply Hstore.
Qed.

Lemma row_loop_ok row l :
  0 ≤ row < rows → ng !! Z.to_nat row = Some l →
  ∀ (n : nat) (c0 : Z) h,
    0 ≤ c0 → c0 + Z.of_nat n = cols → fits cols g ng m h →
    ∃ h', for_each (seqZ c0 (Z.of_nat n)) (update_cell rows cols g ng row) h
            = Ok h' ∧
          (∀ l', l' ≠ l → h' !! l' = h !! l') ∧
          row_at h' l = take (Z.to_nat c0) (row_at h l)
                          ++ (new_cell m rows cols row <$> seqZ c0 (Z.of_nat n)).
Proof.
  intros Hr Hl n. induction n as [| n IH]; intros c0 h Hc0 Hsum Hfit.
  - exists h. simpl. split; [done |]. split; [done |].
    rewrite app_nil_r, take_ge; [done |].
    destruct Hfit as [_ Hrows]. rewrite Forall_lookup in Hrows.
    rewrite (Hrows _ _ Hl). lia.
  - rewrite seqZ_cons by lia. cbn [for_each].
    rewrite (update_cell_ok h row c0 l) by (done || lia). cbn [bind].
    set (rw := <[Z.to_nat c0 := new_cell m rows cols row c0]> (row_at h l)).
    assert (length (row_at h l) = Z.to_nat cols) as Hlen.
    { destruct Hfit as [_ Hrows]. rewrite Forall_lookup in Hrows.
      by apply (Hrows _ _ Hl). }
    assert (length rw = Z.to_nat cols) as Hrw.
    { unfold rw. by rewrite length_insert. }
    replace (Z.pred (Z.of_nat (S n))) with (Z.of_nat n) by lia.
    destruct (IH (Z.succ c0) (<[l := rw]> h)) as (h' & Hrun & Hoff & Hrow);
      [lia | lia | by eapply fits_write |].
    exists h'. split; [done |]. split.
    + intros l' Hne. rewrite Hoff by done. by apply lookup_insert_ne.
    + rewrite Hrow, row_at_insert. cbn [fmap list_fmap].
      replace (Z.to_nat (Z.succ c0)) with (S (Z.to_nat c0)) by lia.
      rewrite (take_S_r rw (Z.to_nat c0) (new_cell m rows cols row c0)).
      * unfold rw. rewrite take_insert_ge by lia.
        by rewrite <- app_assoc.
      * unfold rw. apply list_lookup_insert_eq. lia.
Qed.
Lemma fits_row_length h r l :
  fits cols g ng m h → ng !! r = Some l → length (row_at h l) = Z.to_nat cols.
Proof.
  intros [_ Hrows] Hl. rewrite Forall_lookup in Hrows. by apply (Hrows r).
Qed.

Lemma row_pass_ok h row l :
  fits cols g ng m h → 0 ≤ row < rows → ng !! Z.to_nat row = Some l →
  ∃ h', for_each (range 0 cols) (update_cell rows cols g ng row) h = Ok h' ∧
        (∀ l', l' ≠ l → h' !! l' = h !! l') ∧
        row_at h' l = next_row m rows cols row ∧
        fits cols g ng m h'.
Proof.
  intros Hfit Hr Hl.
  assert (∃ h', for_each (range 0 cols) (update_cell rows cols g ng row) h
                  = Ok h' ∧
                (∀ l', l' ≠ l → h' !! l' = h !! l') ∧
                row_at h' l = next_row m rows cols row)
    as (h' & Hrun & Hoff & Hrow).
  { unfold next_row, range. rewrite Z.sub_0_r.
    destruct (decide (0 ≤ cols)) as [Hcols | Hcols].
    - destruct (row_loop_ok row l Hr Hl (Z.to_nat cols) 0 h)
        as (h' & Hrun & Hoff & Hrow); [lia | lia | done |].
      rewrite Z2Nat.id in Hrun, Hrow by done.
      exists h'. split; [done |]. split; [done |]. by rewrite Hrow.
    - exists h. rewrite seqZ_nil by lia. split; [done |]. split; [done |].
      apply nil_length_inv. rewrite (fits_row_length h _ l Hfit Hl). lia. }
  exists h'. split; [done |]. split; [done |]. split; [done |].
  destruct Hfit as [Hg Hrows]. split.
  - rewrite <- Hg. apply rows_of_agree. intros l' Hl'. apply Hoff.
    intros ->. by apply (separate_lookup _ _ Hl).
  - apply Forall_forall. intros l' Hl'. destruct (decide (l' = l)) as [-> |].
    + rewrite Hrow. unfold next_row, range.
      rewrite length_fmap, length_seqZ. lia.
    + rewrite (row_at_agree h) by (by apply Hoff).
      rewrite Forall_forall in Hrows. by apply Hrows.
Qed.

Lemma grid_loop_ok (n : nat) :
  ∀ (r0 : Z) h,
    0 ≤ r0 → r0 + Z.of_nat n = rows → fits cols g ng m h →
    ∃ h', for_each (seqZ r0 (Z.of_nat n))
            (λ row h,
               for_each (range 0 cols) (update_cell rows cols g ng row) h) h
            = Ok h' ∧
          fits cols g ng m h' ∧
          (∀ l', l' ∉ drop (Z.to_nat r0) ng → h' !! l' = h !! l') ∧
          (NoDup ng → ∀ r l, r0 ≤ r < rows → ng !! Z.to_nat r = Some l →
                      row_at h' l = next_row m rows cols r).
Proof.
  induction n as [| n IH]; intros r0 h Hr0 Hsum Hfit.
  - exists h. simpl. split; [done |]. split; [done |]. split; [done |].
    intros _ r l Hr. lia.
  - rewrite seqZ_cons by lia. cbn [for_each].
    destruct (lookup_lt_is_Some_2 ng (Z.to_nat r0)) as [l0 Hl0]; [lia |].
    destruct (row_pass_ok h r0 l0) as (h1 & Hrun1 & Hoff1 & Hrow1 & Hfit1);
      [done | lia | done |].
    rewrite Hrun1. cbn [bind].
    replace (Z.pred (Z.of_nat (S n))) with (Z.of_nat n) by lia.
    destruct (IH (Z.succ r0) h1) as (h' & Hrun & Hfit' & Hoff & Hrows);
      [lia | lia | done |].
    replace (Z.to_nat (Z.succ r0)) with (S (Z.to_nat r0)) in Hoff by lia.
    exists h'. split; [done |]. split; [done |]. split.
    + intros l' Hl'. rewrite (drop_S _ _ _ Hl0) in Hl'.
      apply not_elem_of_cons in Hl' as [Hne Hl'].
      rewrite Hoff by done. by apply Hoff1.
    + intros Hnd r l Hr Hl. destruct (decide (r = r0)) as [-> | Hne].
      * assert (l = l0) as -> by congruence.
        rewrite <- Hrow1. apply row_at_agree, Hoff.
        intros Hin. apply list_elem_of_lookup in Hin as [i Hi].
        rewrite lookup_drop in Hi.
        pose proof (NoDup_lookup _ _ _ _ Hnd Hl0 Hi). lia.
      * apply Hrows; [done | lia | done].
Qed.

Lemma create_next_grid_fits h :
  fits cols g ng m h →
  ∃ h', create_next_grid h rows cols g ng = Ok h' ∧
        fits cols g ng m h' ∧
        (∀ l', l' ∉ ng → h' !! l' = h !! l') ∧
        (NoDup ng → rows_of h' ng = next_snapshot m rows cols).
Proof.
  intros Hfit. unfold create_next_grid, next_snapshot, range.
  rewrite Z.sub_0_r.
  destruct (decide (0 ≤ rows)) as [Hrows | Hrows].
  - destruct (grid_loop_ok (Z.to_nat rows) 0 h)
      as (h' & Hrun & Hfit' & Hoff & Hnew); [lia | lia | done |].
    rewrite Z2Nat.id in Hrun by done.
    exists h'. split; [done |]. split; [done |]. split; [done |].
    intros Hnd. apply list_eq. intros i. unfold rows_of.
    rewrite !list_lookup_fmap.
    destruct (ng !! i) as [l |] eqn:Hl; simpl.
    + pose proof (lookup_lt_Some _ _ _ Hl) as Hi.
      rewrite lookup_seqZ_lt by lia. simpl. f_equal.
      apply (Hnew Hnd (Z.of_nat i) l); [lia |]. by rewrite Nat2Z.id.
    + apply lookup_ge_None in Hl. rewrite lookup_seqZ_ge by lia. done.
  - exists h. rewrite seqZ_nil by lia. split; [done |]. split; [done |].
    split; [done |]. intros _.
    assert (ng = []) as -> by (apply nil_length_inv; lia). done.
Qed.
End NextGrid.

Lemma create_next_grid_spec h rows cols (g ng : grid) :
  shape rows cols (rows_of h g) → shape rows cols (rows_of h ng) →
  separate g ng →
  ∃ h', create_next_grid h rows cols g ng = Ok h' ∧
        rows_of h' g = rows_of h g ∧
        (∀ l, l ∉ ng → h' !! l = h !! l) ∧
        shape rows cols (rows_of h' ng) ∧
        (NoDup ng → rows_of h' ng = next_snapshot (rows_of h g) rows cols).
Proof.
  intros Hg [Hlen Hrows] Hsep.
  assert (length ng = Z.to_nat rows) as Hng.
  { unfold rows_of in Hlen. by rewrite length_fmap in Hlen. }
  assert (fits cols g ng (rows_of h g) h) as Hfit.
  { split; [done |]. unfold rows_of in Hrows. by rewrite Forall_fmap in Hrows. }
  destruct (create_next_grid_fits rows cols g ng (rows_of h g) Hg Hsep Hng h Hfit)
    as (h' & Hrun & [Hg' Hrows'] & Hoff & Hnew).
  exists h'. split; [done |]. split; [done |]. split; [done |]. split; [| done].
  split.
  - unfold rows_of. by rewrite length_fmap.
  - unfold rows_of. by rewrite Forall_fmap.
Qed.

Lemma cell_next_snapshot m rows cols r c :
  0 ≤ r < rows → 0 ≤ c < cols →
  cell (next_snapshot m rows cols) r c =
    next_state (live_sum m rows cols r c) (cell m r c).
Proof.
  intros Hr Hc. unfold cell at 1, next_snapshot, next_row, range.
  rewrite !Z.sub_0_r, list_lookup_fmap, lookup_seqZ_lt by lia. simpl.
  rewrite list_lookup_fmap, lookup_seqZ_lt by lia. simpl.
  by rewrite !Z2Nat.id by lia.
Qed.

Lemma next_state_binary n s : s = 0 ∨ s = 1 → next_state n s = 0 ∨ next_state n s = 1.
Proof.
  intros Hs. unfold next_state.
  destruct ((n <? 2) || (n >? 3)); [by left |].
  destruct ((n =? 3) && (s =? 0)); [by right | done].
Qed.

Lemma next_snapshot_binary m rows cols :
  binary m → binary (next_snapshot m rows cols).
Proof.
  intros Hb. unfold binary, next_snapshot, next_row.
  apply Forall_fmap, Forall_forall. intros r _.
  apply Forall_fmap, Forall_forall. intros c _. simpl.
  by apply next_state_binary, binary_cell.
Qed.

(** Two snapshots of the same shape are equal when their in-range cells
    are. *)
Lemma snapshot_eq rows cols a b :
  shape rows cols a → shape rows cols b →
  (∀ r c, 0 ≤ r < rows → 0 ≤ c < cols → cell a r c = cell b r c) →
  a = b.
Proof.
  intros [Hla Ha] [Hlb Hb] Hcells. rewrite Forall_lookup in Ha, Hb.
  apply list_eq. intros i.
  destruct (a !! i) as [ra |] eqn:Hra.
  - pose proof (lookup_lt_Some _ _ _ Hra) as Hi.
    destruct (lookup_lt_is_Some_2 b i) as [rb Hrb]; [lia |].
    rewrite Hrb. f_equal. apply list_eq. intros j.
    destruct (ra !! j) as [x |] eqn:Hx.
    + pose proof (lookup_lt_Some _ _ _ Hx) as Hj.
      rewrite (Ha _ _ Hra) in Hj.
      destruct (lookup_lt_is_Some_2 rb j) as [y Hy];
        [rewrite (Hb _ _ Hrb); lia |].
      rewrite Hy. f_equal.
      specialize (Hcells (Z.of_nat i) (Z.of_nat j)). unfold cell in Hcells.
      rewrite !Nat2Z.id, Hra, Hrb in Hcells. simpl in Hcells.
      rewrite Hx, Hy in Hcells. simpl in Hcells. apply Hcells; lia.
    + symmetry. apply lookup_ge_None. apply lookup_ge_None in Hx.
      rewrite (Hb _ _ Hrb). rewrite (Ha _ _ Hra) in Hx. done.
  - symmetry. apply lookup_ge_None. apply lookup_ge_None in Hra. lia.
Qed.

(** ** [grid_changing] scans for a differing cell *)

Lemma for_each_ret_exists {R} (xs : list Z) (body : Z → result (option R))
    (p : Z → bool) (v : R) :
  (∀ x, x ∈ xs → body x = Ok (if p x then Some v else None)) →
  for_each_ret xs body = Ok (if existsb p xs then Some v else None).
Proof.
  induction xs as [| x xs IH]; intros Hbody; [done |].
  cbn [for_each_ret existsb]. rewrite Hbody by left. cbn [bind].
  destruct (p x); [done |]. cbn [orb]. apply IH.
  intros y Hy. apply Hbody. by right.
Qed.

Lemma existsb_range (p : Z → bool) n :
  existsb p (range 0 n) = true ↔ ∃ x, 0 ≤ x < n ∧ p x = true.
Proof.
  rewrite existsb_exists. unfold range. rewrite Z.sub_0_r. split.
  - intros (x & Hx & Hp). apply list_elem_of_In, elem_of_seqZ in Hx.
    exists x. split; [lia | done].
  - intros (x & Hx & Hp). exists x. split; [| done].
    apply list_elem_of_In, elem_of_seqZ. lia.
Qed.

Lemma grid_changing_scan h rows cols (a b : grid) :
  shape rows cols (rows_of h a) → shape rows cols (rows_of h b) →
  grid_changing h rows cols a b =
    Ok (differ rows cols (rows_of h a) (rows_of h b)).
Proof.
  intros Ha Hb. unfold grid_changing, differ.
  rewrite (for_each_ret_exists _ _
             (λ r, existsb (λ c, negb (cell (rows_of h a) r c
                                       =? cell (rows_of h b) r c))
                           (range 0 cols)) true).
  - cbn [bind]. by destruct (existsb _ _).
  - intros r Hr. apply elem_of_seqZ in Hr.
    apply for_each_ret_exists. intros c Hc. apply elem_of_seqZ in Hc.
    rewrite (load_in_range h a rows cols Ha) by lia.
    rewrite (load_in_range h b rows cols Hb) by lia. cbn [bind].
    by destruct (negb _).
Qed.

Lemma differ_true rows cols a b :
  differ rows cols a b = true ↔
  ∃ r c, 0 ≤ r < rows ∧ 0 ≤ c < cols ∧ cell a r c ≠ cell b r c.
Proof.
  unfold differ. rewrite existsb_range. split.
  - intros (r & Hr & Hex). apply existsb_range in Hex as (c & Hc & Hne).
    exists r, c. split; [done |]. split; [done |].
    apply negb_true_iff, Z.eqb_neq in Hne. done.
  - intros (r & c & Hr & Hc & Hne). exists r. split; [done |].
    apply existsb_range. exists c. split; [done |].
    by apply negb_true_iff, Z.eqb_neq.
Qed.

Lemma existsb_same {A} (f f' : A → bool) (l : list A) :
  (∀ x, f x = f' x) → existsb f l = existsb f' l.
Proof.
  intros Hf. induction l as [| x l IH]; [done |].
  cbn [existsb]. by rewrite Hf, IH.
Qed.

Lemma differ_sym rows cols a b : differ rows cols a b = differ rows cols b a.
Proof.
  unfold differ. apply existsb_same. intros r. apply existsb_same.
  intros c. by rewrite Z.eqb_sym.
Qed.

Lemma differ_refl rows cols a : differ rows cols a a = false.
Proof.
  apply not_true_iff_false. rewrite differ_true.
  intros (r & c & _ & _ & Hne). by apply Hne.
Qed.

Lemma differ_false rows cols a b :
  shape rows cols a → shape rows cols b →
  differ rows cols a b = false ↔ a = b.
Proof.
  intros Ha Hb. split.
  - intros Hd. apply (snapshot_eq rows cols); [done | done |].
    intros r c Hr Hc.
    destruct (decide (cell a r c = cell b r c)) as [| Hne]; [done |].
    apply not_true_iff_false in Hd. exfalso. apply Hd, differ_true.
    by exists r, c.
  - intros ->. apply differ_refl.
Qed.

(** ** Wrapping, agreement of stores, the rule *)

Lemma wrap_last n : 1 ≤ n → (0 + -1) `mod` n = n - 1.
Proof. intros H. symmetry. apply (Z.mod_unique_pos _ _ (-1)); lia. Qed.

Lemma wrap_first n : 1 ≤ n → n `mod` n = 0.
Proof. intros H. apply Z.mod_same. lia. Qed.

Lemma py_getitem_elem_of {A} (l : list A) i x : py_getitem l i = Ok x → x ∈ l.
Proof.
  unfold py_getitem. destruct (py_index (length l) i) as [k | e]; [| done].
  cbn [bind]. destruct (l !! k) as [y |] eqn:Hy; [| done].
  intros [= ->]. by eapply list_elem_of_lookup_2.
Qed.

Lemma load_agree (h h' : heap) (g : grid) r c :
  (∀ l, l ∈ g → h' !! l = h !! l) → load h' g r c = load h g r c.
Proof.
  intros Hag. unfold load.
  destruct (py_getitem g r) as [l | e] eqn:Hl; [| done]. cbn [bind].
  by rewrite (row_at_agree h h' l) by (by eapply Hag, py_getitem_elem_of).
Qed.

Lemma separate_sym (g g' : grid) : separate g g' → separate g' g.
Proof.
  unfold separate. rewrite !Forall_forall. intros H l Hl Hl'.
  by apply (H l).
Qed.

Lemma next_state_b3s23 n s : s = 0 ∨ s = 1 → b3s23 n s (next_state n s).
Proof.
  intros Hs. unfold b3s23, next_state.
  destruct (Z.ltb_spec n 2); destruct (Z.gtb_spec n 3);
    destruct (Z.eqb_spec n 3); destruct (Z.eqb_spec s 0);
    cbn [orb andb]; lia.
Qed.

(** One generation from a known snapshot, followed by the stability test. *)
Lemma generation_step h rows cols (g ng : grid) m m' d :
  distinct_buffers h rows cols g ng →
  rows_of h g = m →
  next_snapshot m rows cols = m' →
  differ rows cols m m' = d →
  ∃ h', create_next_grid h rows cols g ng = Ok h' ∧
        rows_of h' g = m ∧ rows_of h' ng = m' ∧
        grid_changing h' rows cols g ng = Ok d ∧
        shape rows cols (rows_of h' g) ∧ shape rows cols (rows_of h' ng).
Proof.
  intros (Hg & Hng & Hsep & Hnd) Hm Hm' Hd.
  destruct (create_next_grid_spec h rows cols g ng Hg Hng Hsep)
    as (h' & Hrun & Hg' & _ & Hng' & Hnew).
  specialize (Hnew Hnd). rewrite Hm in Hg', Hnew. rewrite Hm' in Hnew.
  assert (shape rows cols (rows_of h' g)) as Hshape.
  { rewrite Hg', <- Hm. done. }
  exists h'. split; [done |]. split; [done |]. split; [done |].
  split; [| done].
  rewrite (grid_changing_scan h' rows cols g ng Hshape Hng').
  by rewrite Hg', Hnew, Hd.
Qed.

(** ** Seeding *)

Lemma create_initial_row_spec randint cols k :
  length (create_initial_row randint cols k).1 = Z.to_nat cols ∧
  Forall (λ v, v = 0 ∨ v = 1) (create_initial_row randint cols k).1.
Proof.
  unfold create_initial_row.
  assert (∀ xs acc k,
            Forall (λ v, v = 0 ∨ v = 1) acc →
            length (foldl (λ '(grid_rows, k) (col : Z),
                             if randint k =? 0 then (grid_rows ++ [1], S k)
                             else (grid_rows ++ [0], S k))
                          (acc, k) xs).1 = (length acc + length xs)%nat ∧
            Forall (λ v, v = 0 ∨ v = 1)
              (foldl (λ '(grid_rows, k) (col : Z),
                        if randint k =? 0 then (grid_rows ++ [1], S k)
                        else (grid_rows ++ [0], S k))
                     (acc, k) xs).1) as Hfold.
  { induction xs as [| x xs IH]; intros acc k0 Hacc; cbn [foldl].
    - split; [simpl; lia | done].
    - destruct (randint k0 =? 0).
      + destruct (IH (acc ++ [1]) (S k0)) as [Hlen Hbits].
        { apply Forall_app. split; [done |]. apply Forall_singleton. by right. }
        split; [| done]. rewrite Hlen, length_app. simpl. lia.
      + destruct (IH (acc ++ [0]) (S k0)) as [Hlen Hbits].
        { apply Forall_app. split; [done |]. apply Forall_singleton. by left. }
        split; [| done]. rewrite Hlen, length_app. simpl. lia. }
  destruct (Hfold (range 0 cols) [] k) as [Hlen Hbits]; [done |].
  split; [| done]. rewrite Hlen. unfold range.
  rewrite length_seqZ. simpl. lia.
Qed.

Lemma seeded_alloc h0 cols (g : grid) (h : heap) rw :
  seeded h0 cols g h →
  length rw = Z.to_nat cols → Forall (λ v, v = 0 ∨ v = 1) rw →
  seeded h0 cols (g ++ [fresh (dom h)]) (<[fresh (dom h) := rw]> h).
Proof.
  intros (Hnd & Hin & Hrows & Hold & Hsub) Hlen Hbits.
  pose proof (is_fresh (dom h)) as Hfresh.
  assert (fresh (dom h) ∉ g) as Hnotin.
  { intros Hg. rewrite Forall_forall in Hin. by destruct (Hin _ Hg). }
  assert (rows_of (<[fresh (dom h) := rw]> h) g = rows_of h g) as Hsame.
  { apply rows_of_agree. intros l Hl. apply lookup_insert_ne.
    intros Heq. apply Hnotin. by rewrite Heq. }
  split; [| split; [| split; [| split]]].
  - apply NoDup_app. split; [done |]. split; [| apply NoDup_singleton].
    intros l Hl Hl'. apply list_elem_of_singleton in Hl' as ->. done.
  - apply Forall_app. split.
    + eapply Forall_impl; [exact Hin |]. intros l [Hl Hl0]. split; [| done].
      rewrite dom_insert. set_solver.
    + apply Forall_singleton. split; [rewrite dom_insert; set_solver |].
      intros H0. apply Hfresh. by apply Hsub.
  - unfold rows_of. rewrite fmap_app. apply Forall_app. split.
    + exact (eq_ind_r (Forall _) Hrows Hsame).
    + cbn [fmap list_fmap]. apply Forall_singleton.
      by rewrite row_at_insert.
  - intros l Hl. rewrite lookup_insert_ne; [by apply Hold |].
    intros <-. apply Hfresh. by apply Hsub.
  - rewrite dom_insert. set_solver.
Qed.

Lemma create_initial_grid_seeded randint rows cols h0 k :
  seeded h0 cols (create_initial_grid randint rows cols h0 k).1.1
                 (create_initial_grid randint rows cols h0 k).1.2 ∧
  length (create_initial_grid randint rows cols h0 k).1.1 = Z.to_nat rows.
Proof.
  unfold create_initial_grid.
  assert (∀ xs (g : grid) (h : heap) k,
            seeded h0 cols g h →
            seeded h0 cols
              (foldl (λ '(g, h, k) (row : Z),
                        let '(grid_rows, k) := create_initial_row randint cols k in
                        let '(l, h) := alloc h grid_rows in
                        (g ++ [l], h, k))
                     (g, h, k) xs).1.1
              (foldl (λ '(g, h, k) (row : Z),
                        let '(grid_rows, k) := create_initial_row randint cols k in
                        let '(l, h) := alloc h grid_rows in
                        (g ++ [l], h, k))
                     (g, h, k) xs).1.2 ∧
            length (foldl (λ '(g, h, k) (row : Z),
                        let '(grid_rows, k) := create_initial_row randint cols k in
                        let '(l, h) := alloc h grid_rows in
                        (g ++ [l], h, k))
                     (g, h, k) xs).1.1 = (length g + length xs)%nat) as Hfold.
  { induction xs as [| x xs IH]; intros g h k0 Hseed; cbn [foldl].
    - split; [done | simpl; lia].
    - pose proof (create_initial_row_spec randint cols k0) as [Hlen Hbits].
      destruct (create_initial_row randint cols k0) as [rw k1].
      unfold alloc. cbn [fst snd] in *.
      destruct (IH (g ++ [fresh (dom h)]) (<[fresh (dom h) := rw]> h) k1)
        as [Hseed' Hlen']; [by apply seeded_alloc |].
      split; [exact Hseed' |].
      etransitivity; [exact Hlen' |]. rewrite length_app. simpl. lia. }
  destruct (Hfold (range 0 rows) [] h0 k) as [Hseed Hlen].
  { split; [apply NoDup_nil_2 |]. split; [done |]. split; [done |].
    split; done. }
  split; [done |]. rewrite Hlen. unfold range. rewrite length_seqZ.
  simpl. lia.
Qed.

Lemma seeded_binary h0 cols (g : grid) (h : heap) :
  seeded h0 cols g h → binary (rows_of h g).
Proof.
  intros (_ & _ & Hrows & _). unfold binary.
  eapply Forall_impl; [exact Hrows |]. by intros rw [_ Hbits].
Qed.

Lemma seeded_shape h0 rows cols (g : grid) (h : heap) :
  seeded h0 cols g h → length g = Z.to_nat rows →
  shape rows cols (rows_of h g).
Proof.
  intros (_ & _ & Hrows & _) Hlen. split.
  - unfold rows_of. by rewrite length_fmap.
  - eapply Forall_impl; [exact Hrows |]. by intros rw [Hrw _].
Qed.

(** ** The loop of [run_game] *)

Lemma for_each_total {S} (xs : list Z) (body : Z → S → result S) :
  (∀ x s, x ∈ xs → ∃ s', body x s = Ok s') →
  ∀ s, ∃ s', for_each xs body s = Ok s'.
Proof.
  induction xs as [| x xs IH]; intros Hbody s; [by exists s |].
  cbn [for_each]. destruct (Hbody x s) as [s1 ->]; [by left |]. cbn [bind].
  apply IH. intros y t Hy. apply Hbody. by right.
Qed.

Lemma print_grid_total h rows cols (g : grid) n :
  shape rows cols (rows_of h g) →
  ∃ text, print_grid h rows cols g n = Ok (Frame n text).
Proof.
  intros Hshape. unfold print_grid.
  destruct (for_each_total (range 0 rows)
              (λ row output_str,
                 output_str <~ for_each (range 0 cols) (λ col output_str,
                     v <~ load h g row col;
                     if v =? 0 then Ok (output_str +:+ ". ")
                     else Ok (output_str +:+ "@ ")) output_str;
                 Ok (output_str +:+ end_of_line)))
    with "" as [text Htext].
  - intros row out Hrow. apply elem_of_seqZ in Hrow.
    destruct (for_each_total (range 0 cols)
                (λ col output_str,
                   v <~ load h g row col;
                   if v =? 0 then Ok (output_str +:+ ". ")
                   else Ok (output_str +:+ "@ "))) with out as [out' Hout].
    + intros col o Hcol. apply elem_of_seqZ in Hcol.
      rewrite (load_in_range h g rows cols Hshape) by lia. cbn [bind].
      destruct (_ =? 0); eauto.
    + rewrite Hout. cbn [bind]. eauto.
  - rewrite Htext. cbn [bind]. eauto.
Qed.

Lemma running_step rows cols h (cur nxt : grid) n fs :
  running rows cols (Game h cur nxt n fs) →
  ∃ h', create_next_grid h rows cols cur nxt = Ok h' ∧
        ∀ n' fs', running rows cols (Game h' nxt cur n' fs').
Proof.
  intros ((Hcur & Hnxt & Hsep & Hndn) & Hndc & Hbc & Hbn).
  cbn [store_of current_generation next_generation] in *.
  destruct (create_next_grid_spec h rows cols cur nxt Hcur Hnxt Hsep)
    as (h' & Hrun & Hcur' & _ & Hnxt' & Hnew).
  exists h'. split; [done |]. intros n' fs'.
  split; [| split; [| split]];
    cbn [store_of current_generation next_generation].
  - split; [done |]. split; [by rewrite Hcur' |].
    split; [by apply separate_sym | done].
  - done.
  - rewrite (Hnew Hndn). by apply next_snapshot_binary.
  - by rewrite Hcur'.
Qed.

Lemma generation_loop_spec rows cols gens :
  ∀ st, running rows cols st →
    ∃ st', generation_loop rows cols gens st = Ok st' ∧
           running rows cols st' ∧
           ((labels st' = labels st ++ gens ∧
             gen st' = default (gen st) (last gens))
            ∨ (∃ shown n rest,
                 gens = shown ++ n :: rest ∧
                 labels st' = labels st ++ shown ∧
                 gen st' = n ∧
                 grid_changing (store_of st') rows cols
                   (current_generation st') (next_generation st')
                   = Ok false)).
Proof.
  induction gens as [| n gens IH]; intros st Hst.
  - exists st. split; [done |]. split; [done |]. left.
    by rewrite app_nil_r.
  - destruct st as [h cur nxt g0 fs]. cbn [generation_loop store_of
      current_generation next_generation printed].
    pose proof Hst as ((Hcur & Hnxt & _) & _). cbn [store_of current_generation next_generation] in Hcur, Hnxt.
    rewrite (grid_changing_scan h rows cols cur nxt Hcur Hnxt). cbn [bind].
    destruct (differ rows cols (rows_of h cur) (rows_of h nxt)) eqn:Hd;
      cbn [negb].
    + destruct (print_grid_total h rows cols cur n Hcur) as [text ->].
      cbn [bind].
      destruct (running_step rows cols h cur nxt g0 fs Hst)
        as (h' & -> & Hst').
      cbn [bind].
      destruct (IH (Game h' nxt cur n (fs ++ [Frame n text])) (Hst' _ _))
        as (st' & Hloop & Hrun & Hcase).
      exists st'. split; [done |]. split; [done |].
      unfold labels in *. cbn [printed gen] in *.
      rewrite fmap_app in Hcase. cbn [fmap list_fmap frame_generation] in Hcase.
      destruct Hcase as [[Hl Hg] | (shown & m & rest & Hgens & Hl & Hg & Hch)];
        rewrite <- app_assoc in Hl; cbn [app] in Hl.
      * left. split; [done |]. rewrite Hg. rewrite last_cons.
        by destruct (last gens).
      * right. exists (n :: shown), m, rest. rewrite Hgens. done.
    + exists (Game h cur nxt n fs). split; [done |]. split.
      * exact Hst.
      * right. exists [], n, gens.
        cbn [store_of current_generation next_generation gen app].
        rewrite app_nil_r.
        split; [done |]. split; [done |]. split; [done |].
        by rewrite (grid_changing_scan h rows cols cur nxt Hcur Hnxt), Hd.
Qed.

Lemma initial_game_running randint rows cols :
  running rows cols (initial_game randint rows cols) ∧
  labels (initial_game randint rows cols) = [] ∧
  gen (initial_game randint rows cols) = 1.
Proof.
  unfold initial_game.
  pose proof (create_initial_grid_seeded randint rows cols ∅ 0) as [Hs1 Hl1].
  destruct (create_initial_grid randint rows cols ∅ 0) as [[cur h1] k1].
  pose proof (create_initial_grid_seeded randint rows cols h1 k1) as [Hs2 Hl2].
  destruct (create_initial_grid randint rows cols h1 k1) as [[nxt h2] k2].
  cbn [fst snd] in *. split; [| done].
  assert (rows_of h2 cur = rows_of h1 cur) as Hsame.
  { apply rows_of_agree. intros l Hl.
    destruct Hs1 as (_ & Hin & _), Hs2 as (_ & _ & _ & Hold & _).
    rewrite Forall_forall in Hin. apply Hold. by apply Hin. }
  split; [| split; [| split]];
    cbn [store_of current_generation next_generation].
  - split; [| split; [| split]].
    + rewrite Hsame. by eapply seeded_shape.
    + by eapply seeded_shape.
    + destruct Hs1 as (_ & Hin1 & _), Hs2 as (_ & Hin2 & _).
      unfold separate. rewrite Forall_forall in Hin1, Hin2 |- *.
      intros l Hl Hl'. destruct (Hin2 l Hl) as [_ Hnew]. apply Hnew.
      by apply Hin1.
    + by destruct Hs2.
  - by destruct Hs1.
  - rewrite Hsame. by eapply seeded_binary.
  - by eapply seeded_binary.
Qed.

Lemma seqZ_prefix m n shown x rest :
  seqZ m n = shown ++ x :: rest →
  shown ++ [x] = seqZ m (Z.of_nat (length shown) + 1) ∧
  Z.of_nat (length shown) + 1 ≤ n.
Proof.
  intros Heq.
  assert (Z.of_nat (length shown) + 1 ≤ n) as Hle.
  { apply (f_equal length) in Heq.
    rewrite length_seqZ, length_app in Heq. simpl in Heq. lia. }
  split; [| done].
  replace n with ((Z.of_nat (length shown) + 1)
                  + (n - (Z.of_nat (length shown) + 1))) in Heq by lia.
  rewrite seqZ_app in Heq by lia.
  replace (shown ++ x :: rest) with ((shown ++ [x]) ++ rest) in Heq
    by (by rewrite <- app_assoc).
  apply app_inj_1 in Heq as [Heq _]; [done |].
  rewrite length_seqZ, length_app. simpl. lia.
Qed.

(** X14. The generation numbers shown by a whole run.  When the grid becomes
    stable at generation [n] the frames are numbered 1, ..., [n]; when the
    limit is exhausted they are numbered 1, ..., [generations] and then
    [generations] once more, by the frame printed after the loop. *)
Lemma run_game_labels randint rows cols generations :
  1 ≤ generations →
  ∃ frames, run_game randint rows cols generations = Ok frames ∧
            (frame_generation <$> frames
               = seqZ 1 generations ++ [generations]
             ∨ ∃ n, 1 ≤ n ≤ generations ∧
                    frame_generation <$> frames = seqZ 1 n).
Proof.
  intros Hgen. unfold run_game.
  destruct (initial_game_running randint rows cols) as (Hinit & Hl0 & Hg0).
  destruct (generation_loop_spec rows cols (range 1 (generations + 1))
              (initial_game randint rows cols) Hinit)
    as (st & -> & Hst & Hcase).
  cbn [bind]. pose proof Hst as ((Hcur & _) & _).
  destruct (print_grid_total (store_of st) rows cols (current_generation st)
              (gen st) Hcur) as [text ->].
  cbn [bind]. eexists. split; [done |].
  rewrite fmap_app. cbn [fmap list_fmap frame_generation].
  fold (labels st). rewrite Hl0, Hg0 in Hcase. cbn [app] in Hcase.
  unfold range in Hcase.
  replace (generations + 1 - 1) with generations in Hcase by lia.
  destruct Hcase as [[Hl Hg] | (shown & n & rest & Hgens & Hl & Hg & _)].
  - left. rewrite Hl, Hg, last_lookup, length_seqZ.
    rewrite lookup_seqZ_lt by lia. cbn [default].
    by replace (1 + Z.of_nat (pred (Z.to_nat generations)))
         with generations by lia.
  - right. apply seqZ_prefix in Hgens as [Hpre Hle].
    exists (Z.of_nat (length shown) + 1). split; [lia |].
    by rewrite Hl, Hg, <- Hpre.
Qed.

(** * The specification, claim by claim *)

(** ** The transition rule *)

(** C1. On grids of [rows] by [cols] cells, the current one binary, every
    cell that [create_next_grid] writes follows the rule B3/S23 of the
    number [n] that [get_live_neighbors] gives on the current grid and of
    the current state [s]: dead when [n < 2] or [n > 3], alive when [n = 3]
    whatever [s], [s] unchanged when [n = 2].  This holds of each single
    write, and, the next grid being a distinct buffer, of the whole call:
    [create_next_grid] returns and every in-range cell of the next grid
    holds the value the rule gives on the grid as it was before the call. *)
Theorem create_next_grid_follows_rule h rows cols (g ng : grid) :
  shape rows cols (rows_of h g) → shape rows cols (rows_of h ng) →
  binary (rows_of h g) →
  (∀ r c, 0 ≤ r < rows → 0 ≤ c < cols →
     ∃ n s v l, get_live_neighbors h r c rows cols g = Ok n ∧
                load h g r c = Ok s ∧
                b3s23 n s v ∧
                ng !! Z.to_nat r = Some l ∧
                update_cell rows cols g ng r c h =
                  Ok (<[l := <[Z.to_nat c := v]> (row_at h l)]> h)) ∧
  (separate g ng → NoDup ng →
   ∃ h', create_next_grid h rows cols g ng = Ok h' ∧
         ∀ r c, 0 ≤ r < rows → 0 ≤ c < cols →
           ∃ n s v, get_live_neighbors h r c rows cols g = Ok n ∧
                    load h g r c = Ok s ∧
                    load h' ng r c = Ok v ∧
                    b3s23 n s v).
Proof.
  intros Hg Hng Hbin. split.
  - intros r c Hr Hc.
    destruct (shape_row h ng rows cols Hng r Hr) as (l & Hl & _).
    exists (live_sum (rows_of h g) rows cols r c), (cell (rows_of h g) r c),
           (new_cell (rows_of h g) rows cols r c), l.
    split; [apply (get_live_neighbors_sum h g rows cols Hg); lia |].
    split; [by apply (load_in_range h g rows cols) |].
    split; [by apply next_state_b3s23, binary_cell |].
    split; [done |].
    apply (update_cell_ok rows cols g ng (rows_of h g)); try done.
    + destruct Hng as [Hlen _]. unfold rows_of in Hlen.
      by rewrite length_fmap in Hlen.
    + split; [done |]. destruct Hng as [_ Hrows]. unfold rows_of in Hrows.
      by rewrite Forall_fmap in Hrows.
  - intros Hsep Hnd.
    destruct (create_next_grid_spec h rows cols g ng Hg Hng Hsep)
      as (h' & Hrun & _ & _ & Hng' & Hnew).
    exists h'. split; [done |]. intros r c Hr Hc.
    exists (live_sum (rows_of h g) rows cols r c), (cell (rows_of h g) r c),
           (cell (rows_of h' ng) r c).
    split; [apply (get_live_neighbors_sum h g rows cols Hg); lia |].
    split; [by apply (load_in_range h g rows cols) |].
    split; [by apply (load_in_range h' ng rows cols) |].
    rewrite (Hnew Hnd), cell_next_snapshot by done.
    by apply next_state_b3s23, binary_cell.
Qed.

Lemma create_next_grid_follows_rule_witness :
  shape 5 5 (rows_of (two_grids blinker5 junk5) (first_grid blinker5)) ∧
  shape 5 5 (rows_of (two_grids blinker5 junk5) (second_grid blinker5 junk5)) ∧
  binary (rows_of (two_grids blinker5 junk5) (first_grid blinker5)) ∧
  separate (first_grid blinker5) (second_grid blinker5 junk5) ∧
  NoDup (second_grid blinker5 junk5) ∧
  ∃ h', create_next_grid (two_grids blinker5 junk5) 5 5 (first_grid blinker5)
          (second_grid blinker5 junk5) = Ok h' ∧
        ∃ n s v,
          get_live_neighbors (two_grids blinker5 junk5) 1 2 5 5
            (first_grid blinker5) = Ok n ∧
          load (two_grids blinker5 junk5) (first_grid blinker5) 1 2 = Ok s ∧
          load h' (second_grid blinker5 junk5) 1 2 = Ok v ∧
          b3s23 n s v.
Proof.
  assert (shape 5 5 (rows_of (two_grids blinker5 junk5) (first_grid blinker5)))
    as Hg by compute_done.
  assert (shape 5 5
            (rows_of (two_grids blinker5 junk5) (second_grid blinker5 junk5)))
    as Hng by compute_done.
  assert (binary (rows_of (two_grids blinker5 junk5) (first_grid blinker5)))
    as Hbin by compute_done.
  assert (separate (first_grid blinker5) (second_grid blinker5 junk5))
    as Hsep by compute_done.
  assert (NoDup (second_grid blinker5 junk5)) as Hnd by compute_done.
  split; [exact Hg |]. split; [exact Hng |]. split; [exact Hbin |].
  split; [exact Hsep |]. split; [exact Hnd |].
  destruct (proj2 (create_next_grid_follows_rule (two_grids blinker5 junk5)
                     5 5 (first_grid blinker5) (second_grid blinker5 junk5)
                     Hg Hng Hbin) Hsep Hnd)
    as (h' & Hrun & Hcells).
  exists h'. split; [exact Hrun |]. apply Hcells; lia.
Defined.

(** The precondition of distinct buffers matters: called with the current
    grid as its own next-grid buffer, [create_next_grid] overwrites cells that
    later neighbour counts read, and the blinker does not turn. *)
Example create_next_grid_in_place :
  ∃ h', create_next_grid (two_grids blinker5 junk5) 5 5 (first_grid blinker5)
          (first_grid blinker5) = Ok h' ∧
        rows_of h' (first_grid blinker5) ≠ blinker5 ∧
        rows_of h' (first_grid blinker5) ≠ blinker5_turned.
Proof.
  eexists. split; [vm_compute; reflexivity |].
  split; vm_compute; discriminate.
Qed.

(** ** Neighbour counts on the torus *)

(** C2. On a grid of [rows] by [cols] binary cells ([rows], [cols] at least
    1), [get_live_neighbors] at an in-range cell returns the number of alive
    cells among the 8 positions at the offsets of {-1,0,1}² other than (0,0),
    each coordinate wrapped modulo [rows] and [cols] (row -1 is row
    [rows - 1], row [rows] is row 0, and the same for columns).  The
    positions are counted per offset, all of them are in range, the result is
    between 0 and 8, and the neighbours of (0,0) include [(rows-1, cols-1)],
    [(rows-1, 0)] and [(0, cols-1)]. *)
Theorem get_live_neighbors_counts h (g : grid) rows cols row col :
  1 ≤ rows → 1 ≤ cols →
  shape rows cols (rows_of h g) → binary (rows_of h g) →
  0 ≤ row < rows → 0 ≤ col < cols →
  ∃ n, get_live_neighbors h row col rows cols g = Ok n ∧
       n = Z.of_nat (alive_among (rows_of h g)
                       (neighbor_positions rows cols row col)) ∧
       0 ≤ n ≤ 8 ∧
       neighbor_positions rows cols row col =
         [((row + -1) `mod` rows, (col + -1) `mod` cols);
          ((row + -1) `mod` rows, (col + 0) `mod` cols);
          ((row + -1) `mod` rows, (col + 1) `mod` cols);
          ((row + 0) `mod` rows, (col + -1) `mod` cols);
          ((row + 0) `mod` rows, (col + 1) `mod` cols);
          ((row + 1) `mod` rows, (col + -1) `mod` cols);
          ((row + 1) `mod` rows, (col + 0) `mod` cols);
          ((row + 1) `mod` rows, (col + 1) `mod` cols)] ∧
       (∀ p, p ∈ neighbor_positions rows cols row col →
             0 ≤ p.1 < rows ∧ 0 ≤ p.2 < cols) ∧
       (0 + -1) `mod` rows = rows - 1 ∧ rows `mod` rows = 0 ∧
       (0 + -1) `mod` cols = cols - 1 ∧ cols `mod` cols = 0 ∧
       (rows - 1, cols - 1) ∈ neighbor_positions rows cols 0 0 ∧
       (rows - 1, 0) ∈ neighbor_positions rows cols 0 0 ∧
       (0, cols - 1) ∈ neighbor_positions rows cols 0 0.
Proof.
  intros Hrows Hcols Hshape Hbin Hr Hc.
  exists (live_sum (rows_of h g) rows cols row col).
  split; [apply (get_live_neighbors_sum h g rows cols Hshape); lia |].
  split; [by apply live_sum_alive_among |].
  split.
  { rewrite live_sum_alive_among by done. unfold alive_among.
    pose proof (length_filter
                  (λ p : Z * Z, cell (rows_of h g) p.1 p.2 = 1)
                  (neighbor_positions rows cols row col)) as Hle.
    unfold neighbor_positions in Hle at 2. rewrite length_fmap in Hle.
    simpl in Hle. lia. }
  split; [reflexivity |].
  split.
  { intros p Hp. unfold neighbor_positions in Hp.
    apply list_elem_of_fmap in Hp as (d & -> & _). simpl.
    split; apply Z.mod_pos_bound; lia. }
  rewrite !wrap_last, !wrap_first by done.
  repeat split; try done; unfold neighbor_positions, offsets;
    cbn [fmap list_fmap fst snd];
    rewrite !wrap_last, ?Z.add_0_l, ?Z.mod_0_l by lia.
  - apply list_elem_of_here.
  - apply list_elem_of_further, list_elem_of_here.
  - do 3 apply list_elem_of_further. apply list_elem_of_here.
Qed.

Lemma get_live_neighbors_counts_witness :
  shape 3 3 (rows_of (two_grids line3 junk3) (first_grid line3)) ∧
  binary (rows_of (two_grids line3 junk3) (first_grid line3)) ∧
  ∃ n, get_live_neighbors (two_grids line3 junk3) 0 0 3 3 (first_grid line3)
         = Ok n ∧
       n = Z.of_nat (alive_among
                       (rows_of (two_grids line3 junk3) (first_grid line3))
                       (neighbor_positions 3 3 0 0)) ∧
       0 ≤ n ≤ 8.
Proof.
  assert (shape 3 3 (rows_of (two_grids line3 junk3) (first_grid line3)))
    as Hshape by compute_done.
  assert (binary (rows_of (two_grids line3 junk3) (first_grid line3)))
    as Hbin by compute_done.
  split; [exact Hshape |]. split; [exact Hbin |].
  destruct (get_live_neighbors_counts (two_grids line3 junk3)
              (first_grid line3) 3 3 0 0) as (n & Hn & Hcount & Hb & _);
    [lia | lia | exact Hshape | exact Hbin | lia | lia |].
  exists n. split; [exact Hn |]. split; [exact Hcount | exact Hb].
Defined.

(** Positions are counted per offset.  On a torus of one cell the eight
    wrapped positions are all that cell, and a live cell counts 8 live
    neighbours. *)
Example get_live_neighbors_torus_of_one_cell :
  neighbor_positions 1 1 0 0 = replicate 8 (0, 0) ∧
  get_live_neighbors (two_grids [[1]] [[0]]) 0 0 1 1 (first_grid [[1]]) = Ok 8.
Proof. split; vm_compute; reflexivity. Qed.

(** ** The stability test *)

(** C3. For two grids of [rows] by [cols] cells, [grid_changing] returns
    [True] if and only if some in-range cell differs between them, and
    [False] exactly when they agree on every in-range cell, that is, when
    they hold the same contents. *)
Theorem grid_changing_iff_some_cell_differs h rows cols (a b : grid) :
  shape rows cols (rows_of h a) → shape rows cols (rows_of h b) →
  ∃ d, grid_changing h rows cols a b = Ok d ∧
       (d = true ↔
        ∃ r c x y, 0 ≤ r < rows ∧ 0 ≤ c < cols ∧
                   load h a r c = Ok x ∧ load h b r c = Ok y ∧ x ≠ y) ∧
       (d = false ↔
        ∀ r c, 0 ≤ r < rows → 0 ≤ c < cols → load h a r c = load h b r c) ∧
       (d = false ↔ rows_of h a = rows_of h b).
Proof.
  intros Ha Hb. exists (differ rows cols (rows_of h a) (rows_of h b)).
  split; [by apply grid_changing_scan |].
  assert (differ rows cols (rows_of h a) (rows_of h b) = false ↔
          ∀ r c, 0 ≤ r < rows → 0 ≤ c < cols →
                 cell (rows_of h a) r c = cell (rows_of h b) r c) as Hfalse.
  { rewrite <- not_true_iff_false, differ_true. split.
    - intros Hno r c Hr Hc.
      destruct (decide (cell (rows_of h a) r c = cell (rows_of h b) r c));
        [done |].
      exfalso. apply Hno. by exists r, c.
    - intros Hall (r & c & Hr & Hc & Hne). apply Hne. by apply Hall. }
  split; [| split].
  - rewrite differ_true. split.
    + intros (r & c & Hr & Hc & Hne).
      exists r, c, (cell (rows_of h a) r c), (cell (rows_of h b) r c).
      split; [done |]. split; [done |].
      split; [by apply (load_in_range h a rows cols) |].
      split; [by apply (load_in_range h b rows cols) | done].
    + intros (r & c & x & y & Hr & Hc & Hx & Hy & Hne).
      rewrite (load_in_range h a rows cols Ha) in Hx by done.
      rewrite (load_in_range h b rows cols Hb) in Hy by done.
      exists r, c. split; [done |]. split; [done |]. congruence.
  - rewrite Hfalse. split.
    + intros Hall r c Hr Hc.
      rewrite (load_in_range h a rows cols Ha) by done.
      rewrite (load_in_range h b rows cols Hb) by done.
      f_equal. by apply Hall.
    + intros Hall r c Hr Hc. specialize (Hall r c Hr Hc).
      rewrite (load_in_range h a rows cols Ha) in Hall by done.
      rewrite (load_in_range h b rows cols Hb) in Hall by done.
      congruence.
  - rewrite Hfalse. split.
    + intros Hall. by apply (snapshot_eq rows cols).
    + intros Heq r c _ _. by rewrite Heq.
Qed.

Lemma grid_changing_iff_some_cell_differs_witness :
  shape 3 3 (rows_of (two_grids line3 junk3) (first_grid line3)) ∧
  shape 3 3 (rows_of (two_grids line3 junk3) (second_grid line3 junk3)) ∧
  ∃ d, grid_changing (two_grids line3 junk3) 3 3 (first_grid line3)
         (second_grid line3 junk3) = Ok d ∧
       (d = false ↔
        rows_of (two_grids line3 junk3) (first_grid line3) =
        rows_of (two_grids line3 junk3) (second_grid line3 junk3)).
Proof.
  assert (shape 3 3 (rows_of (two_grids line3 junk3) (first_grid line3)))
    as Ha by compute_done.
  assert (shape 3 3
            (rows_of (two_grids line3 junk3) (second_grid line3 junk3)))
    as Hb by compute_done.
  split; [exact Ha |]. split; [exact Hb |].
  destruct (grid_changing_iff_some_cell_differs (two_grids line3 junk3) 3 3
              (first_grid line3) (second_grid line3 junk3) Ha Hb)
    as (d & Hd & _ & _ & Heq).
  exists d. split; [exact Hd | exact Heq].
Defined.

(** ** Frames and generation numbers *)

(** C4 fails on the code when the loop ends by exhausting the limit.  With
    10 rows, 10 columns, a limit of one generation and initial grids that
    differ, [run_game] prints two frames and both carry generation number 1:
    the frame printed after the loop shows the newly computed grid under the
    number the loop variable held last. *)
Theorem run_game_repeats_last_generation_number :
  ∃ frames, run_game one_cell_draws 10 10 1 = Ok frames ∧
            frame_generation <$> frames = [1; 1] ∧
            frame_text <$> (frames !! 0%nat) ≠ frame_text <$> (frames !! 1%nat) ∧
            ¬ NoDup (frame_generation <$> frames).
Proof.
  eexists. split; [vm_compute; reflexivity |].
  split; [vm_compute; reflexivity |].
  split; [vm_compute; discriminate |].
  intros Hnd. apply NoDup_cons in Hnd as [Hnotin _].
  apply Hnotin. apply list_elem_of_here.
Qed.

(** The sibling path: when the loop stops on a stable grid, every number is
    shown once.  The single live cell dies, and the run stops at
    generation 3. *)
Example run_game_stable_numbers_once :
  ∃ frames, run_game one_cell_draws 10 10 5 = Ok frames ∧
            frame_generation <$> frames = [1; 2; 3].
Proof. eexists. split; vm_compute; reflexivity. Qed.

(** ** Coordinates out of range *)

(** C5 as stated fails.  Row -1 and column 7 are out of range on a 3 by 3
    grid, yet [get_live_neighbors] returns 2, the count at the wrapped cell
    (2, 1); no exception is raised. *)
Lemma get_live_neighbors_out_of_range_returns :
  get_live_neighbors (two_grids line3 junk3) (-1) 7 3 3 (first_grid line3)
    = Ok 2 ∧
  ¬ ∃ e, get_live_neighbors (two_grids line3 junk3) (-1) 7 3 3
           (first_grid line3) = Raise e.
Proof.
  assert (get_live_neighbors (two_grids line3 junk3) (-1) 7 3 3
            (first_grid line3) = Ok 2) as H by (vm_compute; reflexivity).
  split; [exact H |]. intros [e He]. rewrite H in He. discriminate He.
Qed.

(** C5, amended.  On a grid of [rows] by [cols] cells ([rows], [cols] at
    least 1), [get_live_neighbors] raises nothing for any integer
    coordinates, in range or not: the coordinates are wrapped modulo [rows]
    and [cols], and the result is the one for the in-range cell
    [(row mod rows, col mod cols)]. *)
Theorem get_live_neighbors_wraps_any_coordinates h (g : grid) rows cols row col :
  1 ≤ rows → 1 ≤ cols → shape rows cols (rows_of h g) →
  0 ≤ row `mod` rows < rows ∧ 0 ≤ col `mod` cols < cols ∧
  ∃ n, get_live_neighbors h row col rows cols g = Ok n ∧
       get_live_neighbors h (row `mod` rows) (col `mod` cols) rows cols g
         = Ok n.
Proof.
  intros Hrows Hcols Hshape.
  split; [apply Z.mod_pos_bound; lia |].
  split; [apply Z.mod_pos_bound; lia |].
  exists (live_sum (rows_of h g) rows cols row col).
  rewrite !(get_live_neighbors_sum h g rows cols Hshape) by lia.
  split; [done |]. unfold live_sum. by rewrite neighbor_positions_mod.
Qed.

Lemma get_live_neighbors_wraps_any_coordinates_witness :
  shape 3 3 (rows_of (two_grids line3 junk3) (first_grid line3)) ∧
  ∃ n, get_live_neighbors (two_grids line3 junk3) (-1) 7 3 3
         (first_grid line3) = Ok n ∧
       get_live_neighbors (two_grids line3 junk3) ((-1) `mod` 3) (7 `mod` 3)
         3 3 (first_grid line3) = Ok n.
Proof.
  assert (shape 3 3 (rows_of (two_grids line3 junk3) (first_grid line3)))
    as Hshape by compute_done.
  split; [exact Hshape |].
  apply (get_live_neighbors_wraps_any_coordinates (two_grids line3 junk3)
           (first_grid line3) 3 3 (-1) 7); [lia | lia | exact Hshape].
Defined.

(** ** Determinism *)

(** C6. [create_next_grid] is deterministic and its output depends only on
    the current grid: two calls on current grids with equal contents, each
    with its own next-grid buffer of arbitrary initial contents, both return
    and leave next-grid buffers that are equal cell for cell; every cell of
    the buffer is overwritten by the value computed from the current grid. *)
Theorem create_next_grid_depends_only_on_current
    h1 h2 rows cols (g1 ng1 g2 ng2 : grid) :
  distinct_buffers h1 rows cols g1 ng1 →
  distinct_buffers h2 rows cols g2 ng2 →
  rows_of h1 g1 = rows_of h2 g2 →
  ∃ h1' h2', create_next_grid h1 rows cols g1 ng1 = Ok h1' ∧
             create_next_grid h2 rows cols g2 ng2 = Ok h2' ∧
             rows_of h1' ng1 = rows_of h2' ng2 ∧
             rows_of h1' ng1 = next_snapshot (rows_of h1 g1) rows cols ∧
             ∀ r c, 0 ≤ r < rows → 0 ≤ c < cols →
               load h1' ng1 r c = load h2' ng2 r c ∧
               load h1' ng1 r c =
                 Ok (new_cell (rows_of h1 g1) rows cols r c).
Proof.
  intros (Hg1 & Hng1 & Hsep1 & Hnd1) (Hg2 & Hng2 & Hsep2 & Hnd2) Heq.
  destruct (create_next_grid_spec h1 rows cols g1 ng1 Hg1 Hng1 Hsep1)
    as (h1' & Hrun1 & _ & _ & Hshape1 & Hnew1).
  destruct (create_next_grid_spec h2 rows cols g2 ng2 Hg2 Hng2 Hsep2)
    as (h2' & Hrun2 & _ & _ & Hshape2 & Hnew2).
  specialize (Hnew1 Hnd1). specialize (Hnew2 Hnd2).
  exists h1', h2'. split; [done |]. split; [done |].
  split; [by rewrite Hnew1, Hnew2, Heq |]. split; [done |].
  intros r c Hr Hc.
  rewrite (load_in_range h1' ng1 rows cols Hshape1) by done.
  rewrite (load_in_range h2' ng2 rows cols Hshape2) by done.
  rewrite Hnew1, Hnew2, Heq. split; [done |].
  by rewrite cell_next_snapshot.
Qed.

Lemma create_next_grid_depends_only_on_current_witness :
  distinct_buffers (two_grids blinker5 junk5) 5 5 (first_grid blinker5)
    (second_grid blinker5 junk5) ∧
  distinct_buffers (two_grids blinker5 block5) 5 5 (first_grid blinker5)
    (second_grid blinker5 block5) ∧
  rows_of (two_grids blinker5 junk5) (first_grid blinker5) =
    rows_of (two_grids blinker5 block5) (first_grid blinker5) ∧
  ∃ h1' h2',
    create_next_grid (two_grids blinker5 junk5) 5 5 (first_grid blinker5)
      (second_grid blinker5 junk5) = Ok h1' ∧
    create_next_grid (two_grids blinker5 block5) 5 5 (first_grid blinker5)
      (second_grid blinker5 block5) = Ok h2' ∧
    rows_of h1' (second_grid blinker5 junk5) =
      rows_of h2' (second_grid blinker5 block5).
Proof.
  assert (distinct_buffers (two_grids blinker5 junk5) 5 5
            (first_grid blinker5) (second_grid blinker5 junk5))
    as H1 by compute_done.
  assert (distinct_buffers (two_grids blinker5 block5) 5 5
            (first_grid blinker5) (second_grid blinker5 block5))
    as H2 by compute_done.
  assert (rows_of (two_grids blinker5 junk5) (first_grid blinker5) =
          rows_of (two_grids blinker5 block5) (first_grid blinker5))
    as Heq by (vm_compute; reflexivity).
  split; [exact H1 |]. split; [exact H2 |]. split; [exact Heq |].
  destruct (create_next_grid_depends_only_on_current
              (two_grids blinker5 junk5) (two_grids blinker5 block5) 5 5
              (first_grid blinker5) (second_grid blinker5 junk5)
              (first_grid blinker5) (second_grid blinker5 block5) H1 H2 Heq)
    as (h1' & h2' & Hrun1 & Hrun2 & Hsame & _).
  exists h1', h2'. split; [exact Hrun1 |]. split; [exact Hrun2 | exact Hsame].
Defined.

(** ** The current grid is only read *)

(** C7. When the current grid and the next-grid buffer are distinct buffers,
    [create_next_grid] returns and leaves the current grid unchanged: none of
    its row objects is written, so it reads cell for cell as before the
    call. *)
Theorem create_next_grid_preserves_current h rows cols (g ng : grid) :
  shape rows cols (rows_of h g) → shape rows cols (rows_of h ng) →
  separate g ng →
  ∃ h', create_next_grid h rows cols g ng = Ok h' ∧
        (∀ l, l ∈ g → h' !! l = h !! l) ∧
        rows_of h' g = rows_of h g ∧
        ∀ r c, load h' g r c = load h g r c.
Proof.
  intros Hg Hng Hsep.
  destruct (create_next_grid_spec h rows cols g ng Hg Hng Hsep)
    as (h' & Hrun & _ & Hoff & _).
  assert (∀ l, l ∈ g → h' !! l = h !! l) as Hag.
  { intros l Hl. apply Hoff. intros Hl'.
    unfold separate in Hsep. rewrite Forall_forall in Hsep.
    by apply (Hsep l). }
  exists h'. split; [done |]. split; [done |].
  split; [by apply rows_of_agree |]. intros r c. by apply load_agree.
Qed.

Lemma create_next_grid_preserves_current_witness :
  shape 5 5 (rows_of (two_grids blinker5 junk5) (first_grid blinker5)) ∧
  shape 5 5 (rows_of (two_grids blinker5 junk5) (second_grid blinker5 junk5)) ∧
  separate (first_grid blinker5) (second_grid blinker5 junk5) ∧
  ∃ h', create_next_grid (two_grids blinker5 junk5) 5 5 (first_grid blinker5)
          (second_grid blinker5 junk5) = Ok h' ∧
        rows_of h' (first_grid blinker5) =
          rows_of (two_grids blinker5 junk5) (first_grid blinker5).
Proof.
  assert (shape 5 5 (rows_of (two_grids blinker5 junk5) (first_grid blinker5)))
    as Hg by compute_done.
  assert (shape 5 5
            (rows_of (two_grids blinker5 junk5) (second_grid blinker5 junk5)))
    as Hng by compute_done.
  assert (separate (first_grid blinker5) (second_grid blinker5 junk5))
    as Hsep by compute_done.
  split; [exact Hg |]. split; [exact Hng |]. split; [exact Hsep |].
  destruct (create_next_grid_preserves_current (two_grids blinker5 junk5) 5 5
              (first_grid blinker5) (second_grid blinker5 junk5) Hg Hng Hsep)
    as (h' & Hrun & _ & Hsame & _).
  exists h'. split; [exact Hrun | exact Hsame].
Defined.

(** ** A still life *)

(** C8. A still life is a fixed point of the program.  For every grid size
    and every pattern [m] whose next generation under the rule is [m] itself
    (the 2 by 2 block at (1,1), (1,2), (2,1), (2,2) of a 5 by 5 torus is
    one), [create_next_grid] writes a next grid identical to the current
    one, so [grid_changing] returns [False], and a second
    [create_next_grid], from the new grid back into the first buffer as the
    loop of [run_game] does, yields the same grid again. *)
Theorem still_life_is_a_fixed_point h rows cols (g ng : grid) m :
  distinct_buffers h rows cols g ng → NoDup g →
  rows_of h g = m →
  next_snapshot m rows cols = m →
  ∃ h', create_next_grid h rows cols g ng = Ok h' ∧
        rows_of h' g = m ∧
        rows_of h' ng = m ∧
        grid_changing h' rows cols g ng = Ok false ∧
        ∃ h'', create_next_grid h' rows cols ng g = Ok h'' ∧
               rows_of h'' ng = m ∧
               rows_of h'' g = m ∧
               grid_changing h'' rows cols ng g = Ok false.
Proof.
  intros Hbuf Hnd Hm Hfix.
  destruct (generation_step h rows cols g ng m m false Hbuf Hm Hfix)
    as (h' & Hrun & Hg & Hng & Hch & Hsg & Hsng); [apply differ_refl |].
  exists h'. split; [done |]. split; [done |]. split; [done |].
  split; [done |].
  assert (distinct_buffers h' rows cols ng g) as Hbuf'.
  { destruct Hbuf as (_ & _ & Hsep & _).
    split; [done |]. split; [done |]. split; [by apply separate_sym | done]. }
  destruct (generation_step h' rows cols ng g m m false Hbuf' Hng Hfix)
    as (h'' & Hrun' & Hng' & Hg' & Hch' & _); [apply differ_refl |].
  by exists h''.
Qed.

Lemma still_life_is_a_fixed_point_witness :
  distinct_buffers (two_grids block5 junk5) 5 5 (first_grid block5)
    (second_grid block5 junk5) ∧
  NoDup (first_grid block5) ∧
  rows_of (two_grids block5 junk5) (first_grid block5) = block5 ∧
  next_snapshot block5 5 5 = block5 ∧
  ∃ h', create_next_grid (two_grids block5 junk5) 5 5 (first_grid block5)
          (second_grid block5 junk5) = Ok h' ∧
        rows_of h' (first_grid block5) = block5 ∧
        rows_of h' (second_grid block5 junk5) = block5 ∧
        grid_changing h' 5 5 (first_grid block5) (second_grid block5 junk5)
          = Ok false ∧
        ∃ h'', create_next_grid h' 5 5 (second_grid block5 junk5)
                 (first_grid block5) = Ok h'' ∧
               rows_of h'' (second_grid block5 junk5) = block5 ∧
               rows_of h'' (first_grid block5) = block5 ∧
               grid_changing h'' 5 5 (second_grid block5 junk5)
                 (first_grid block5) = Ok false.
Proof.
  assert (distinct_buffers (two_grids block5 junk5) 5 5 (first_grid block5)
            (second_grid block5 junk5)) as Hbuf by compute_done.
  assert (NoDup (first_grid block5)) as Hnd by compute_done.
  assert (rows_of (two_grids block5 junk5) (first_grid block5) = block5)
    as Hm by (vm_compute; reflexivity).
  assert (next_snapshot block5 5 5 = block5) as Hfix
    by (vm_compute; reflexivity).
  split; [exact Hbuf |]. split; [exact Hnd |]. split; [exact Hm |].
  split; [exact Hfix |].
  exact (still_life_is_a_fixed_point (two_grids block5 junk5) 5 5
           (first_grid block5) (second_grid block5 junk5) block5
           Hbuf Hnd Hm Hfix).
Defined.

(** ** An oscillator *)

(** C9. The stability test is strict equality of consecutive generations,
    not detection of a period.  For every grid size and every pattern [m],
    after [create_next_grid] the test [grid_changing] returns [True] exactly
    when the next generation differs from [m], and [False] exactly when it
    equals [m].  Hence for every period-2 oscillator (the next generation
    differs from [m], the one after is [m] again; the horizontal blinker at
    (2,1), (2,2), (2,3) of a 5 by 5 torus is one) the grid written differs
    from the current one and [grid_changing] returns [True]; one generation
    later the first grid is back and [grid_changing] returns [True]
    again. *)
Theorem oscillator_keeps_changing h rows cols (g ng : grid) m :
  distinct_buffers h rows cols g ng → NoDup g →
  rows_of h g = m →
  ∃ h' d,
    create_next_grid h rows cols g ng = Ok h' ∧
    rows_of h' g = m ∧
    rows_of h' ng = next_snapshot m rows cols ∧
    grid_changing h' rows cols g ng = Ok d ∧
    (d = true ↔ next_snapshot m rows cols ≠ m) ∧
    (d = false ↔ next_snapshot m rows cols = m) ∧
    (next_snapshot m rows cols ≠ m →
     next_snapshot (next_snapshot m rows cols) rows cols = m →
     rows_of h' ng ≠ rows_of h' g ∧
     grid_changing h' rows cols g ng = Ok true ∧
     ∃ h'', create_next_grid h' rows cols ng g = Ok h'' ∧
            rows_of h'' ng = next_snapshot m rows cols ∧
            rows_of h'' g = m ∧
            grid_changing h'' rows cols ng g = Ok true).
Proof.
  intros Hbuf Hnd Hm.
  destruct (generation_step h rows cols g ng m (next_snapshot m rows cols)
              (differ rows cols m (next_snapshot m rows cols)) Hbuf Hm)
    as (h' & Hrun & Hg & Hng & Hch & Hsg & Hsng); [done | done |].
  assert (differ rows cols m (next_snapshot m rows cols) = false ↔
          next_snapshot m rows cols = m) as Hfalse.
  { assert (shape rows cols m) as Hsm by (by rewrite <- Hg).
    assert (shape rows cols (next_snapshot m rows cols)) as Hsn
      by (by rewrite <- Hng).
    rewrite (differ_false rows cols m _ Hsm Hsn).
    split; intros Heq; symmetry; exact Heq. }
  exists h', (differ rows cols m (next_snapshot m rows cols)).
  split; [done |]. split; [done |]. split; [done |]. split; [done |].
  split; [by rewrite <- Hfalse, not_false_iff_true |]. split; [done |].
  intros Hne Hback.
  assert (differ rows cols m (next_snapshot m rows cols) = true) as Htrue
    by (by rewrite <- not_false_iff_true, Hfalse).
  split; [by rewrite Hg, Hng |]. split; [by rewrite Hch, Htrue |].
  assert (distinct_buffers h' rows cols ng g) as Hbuf'.
  { destruct Hbuf as (_ & _ & Hsep & _).
    split; [done |]. split; [done |]. split; [by apply separate_sym | done]. }
  destruct (generation_step h' rows cols ng g (next_snapshot m rows cols) m
              true Hbuf' Hng Hback)
    as (h'' & Hrun' & Hng' & Hg' & Hch' & _);
    [by rewrite differ_sym |].
  by exists h''.
Qed.

Lemma oscillator_keeps_changing_witness :
  distinct_buffers (two_grids blinker5 junk5) 5 5 (first_grid blinker5)
    (second_grid blinker5 junk5) ∧
  NoDup (first_grid blinker5) ∧
  rows_of (two_grids blinker5 junk5) (first_grid blinker5) = blinker5 ∧
  next_snapshot blinker5 5 5 = blinker5_turned ∧
  next_snapshot blinker5 5 5 ≠ blinker5 ∧
  next_snapshot (next_snapshot blinker5 5 5) 5 5 = blinker5 ∧
  ∃ h', create_next_grid (two_grids blinker5 junk5) 5 5 (first_grid blinker5)
          (second_grid blinker5 junk5) = Ok h' ∧
        rows_of h' (second_grid blinker5 junk5) = blinker5_turned ∧
        rows_of h' (second_grid blinker5 junk5)
          ≠ rows_of h' (first_grid blinker5) ∧
        grid_changing h' 5 5 (first_grid blinker5)
          (second_grid blinker5 junk5) = Ok true ∧
        ∃ h'', create_next_grid h' 5 5 (second_grid blinker5 junk5)
                 (first_grid blinker5) = Ok h'' ∧
               rows_of h'' (first_grid blinker5) = blinker5 ∧
               grid_changing h'' 5 5 (second_grid blinker5 junk5)
                 (first_grid blinker5) = Ok true.
Proof.
  assert (distinct_buffers (two_grids blinker5 junk5) 5 5
            (first_grid blinker5) (second_grid blinker5 junk5))
    as Hbuf by compute_done.
  assert (NoDup (first_grid blinker5)) as Hnd by compute_done.
  assert (rows_of (two_grids blinker5 junk5) (first_grid blinker5) = blinker5)
    as Hm by (vm_compute; reflexivity).
  assert (next_snapshot blinker5 5 5 = blinker5_turned) as Hturn
    by (vm_compute; reflexivity).
  assert (next_snapshot blinker5 5 5 ≠ blinker5) as Hne
    by (vm_compute; discriminate).
  assert (next_snapshot (next_snapshot blinker5 5 5) 5 5 = blinker5) as Hback
    by (vm_compute; reflexivity).
  split; [exact Hbuf |]. split; [exact Hnd |]. split; [exact Hm |].
  split; [exact Hturn |]. split; [exact Hne |]. split; [exact Hback |].
  destruct (oscillator_keeps_changing (two_grids blinker5 junk5) 5 5
              (first_grid blinker5) (second_grid blinker5 junk5) blinker5
              Hbuf Hnd Hm)
    as (h' & d & Hrun & _ & Hng & _ & _ & _ & Hosc).
  destruct (Hosc Hne Hback) as (Hdiff & Hch & h'' & Hrun' & _ & Hg' & Hch').
  exists h'. split; [exact Hrun |].
  split; [by rewrite Hng, Hturn |]. split; [exact Hdiff |].
  split; [exact Hch |].
  exists h''. split; [exact Hrun' |]. split; [exact Hg' | exact Hch'].
Defined.

(** ** Binary cells *)

(** C10. The cells stay binary.  Every grid that [create_initial_grid]
    returns holds only 0 and 1, whatever the random draws.  For a current
    grid of binary cells and a distinct next-grid buffer, [create_next_grid]
    returns and every cell of the next grid is 0 or 1, the current grid being
    unchanged.  Hence after any number of iterations of the loop of
    [run_game], started on its two seeded grids, both grids hold only 0 and
    1. *)
Theorem cells_stay_binary :
  (∀ randint rows cols h k,
     binary (rows_of (create_initial_grid randint rows cols h k).1.2
                     (create_initial_grid randint rows cols h k).1.1)) ∧
  (∀ h rows cols (g ng : grid),
     distinct_buffers h rows cols g ng → binary (rows_of h g) →
     ∃ h', create_next_grid h rows cols g ng = Ok h' ∧
           binary (rows_of h' ng) ∧
           binary (rows_of h' g)) ∧
  (∀ randint rows cols gens,
     ∃ st, generation_loop rows cols gens (initial_game randint rows cols)
             = Ok st ∧
           binary (rows_of (store_of st) (current_generation st)) ∧
           binary (rows_of (store_of st) (next_generation st))).
Proof.
  split; [| split].
  - intros randint rows cols h k.
    destruct (create_initial_grid_seeded randint rows cols h k) as [Hseed _].
    by eapply seeded_binary.
  - intros h rows cols g ng (Hg & Hng & Hsep & Hnd) Hbin.
    destruct (create_next_grid_spec h rows cols g ng Hg Hng Hsep)
      as (h' & Hrun & Hg' & _ & _ & Hnew).
    exists h'. split; [done |]. split.
    + rewrite (Hnew Hnd). by apply next_snapshot_binary.
    + by rewrite Hg'.
  - intros randint rows cols gens.
    destruct (initial_game_running randint rows cols) as (Hinit & _).
    destruct (generation_loop_spec rows cols gens
                (initial_game randint rows cols) Hinit)
      as (st & Hloop & (_ & _ & Hbc & Hbn) & _).
    by exists st.
Qed.

Lemma cells_stay_binary_witness :
  distinct_buffers (two_grids blinker5 junk5) 5 5 (first_grid blinker5)
    (second_grid blinker5 junk5) ∧
  binary (rows_of (two_grids blinker5 junk5) (first_grid blinker5)) ∧
  ¬ binary (rows_of (two_grids blinker5 junk5) (second_grid blinker5 junk5)) ∧
  ∃ h', create_next_grid (two_grids blinker5 junk5) 5 5 (first_grid blinker5)
          (second_grid blinker5 junk5) = Ok h' ∧
        binary (rows_of h' (second_grid blinker5 junk5)) ∧
        binary (rows_of h' (first_grid blinker5)).
Proof.
  assert (distinct_buffers (two_grids blinker5 junk5) 5 5
            (first_grid blinker5) (second_grid blinker5 junk5))
    as Hbuf by compute_done.
  assert (binary (rows_of (two_grids blinker5 junk5) (first_grid blinker5)))
    as Hbin by compute_done.
  split; [exact Hbuf |]. split; [exact Hbin |]. split; [compute_done |].
  exact (proj1 (proj2 cells_stay_binary) (two_grids blinker5 junk5) 5 5
           (first_grid blinker5) (second_grid blinker5 junk5) Hbuf Hbin).
Defined.

(** * Further properties of the program *)

(** ** Sizes and bounds *)

Lemma py_getitem_out_of_range {A} (l : list A) i :
  Z.of_nat (length l) ≤ i → py_getitem l i = Raise IndexError.
Proof.
  intros Hi. unfold py_getitem, py_index.
  rewrite decide_False by lia. by rewrite decide_False by lia.
Qed.

Lemma for_each_skip {S} (xs : list Z) (body : Z → S → result S) s :
  (∀ x, body x s = Ok s) → for_each xs body s = Ok s.
Proof.
  intros Hbody. induction xs as [| x xs IH]; [done |].
  cbn [for_each]. by rewrite Hbody.
Qed.

Lemma for_each_ret_skip {R} (xs : list Z) (body : Z → result (option R)) :
  (∀ x, body x = Ok None) → for_each_ret xs body = Ok None.
Proof.
  intros Hbody. induction xs as [| x xs IH]; [done |].
  cbn [for_each_ret]. by rewrite Hbody.
Qed.

Lemma get_live_neighbors_first_cell h row col rows cols (g : grid) e :
  wrapped_cell h row col rows cols g (-1) (-1) = Raise e →
  get_live_neighbors h row col rows cols g = Raise e.
Proof.
  intros Hfirst. unfold get_live_neighbors.
  change (range (-1) 2) with [-1; 0; 1].
  cbn [for_each negb andb Z.eqb Pos.eqb]. by rewrite Hfirst.
Qed.

(** X1. [get_live_neighbors] divides by the sizes it is given: with
    [rows = 0], or with [cols = 0] on a grid of [rows] rows, it raises
    [ZeroDivisionError] whatever the cell asked for. *)
Theorem get_live_neighbors_zero_size h row col rows cols (g : grid) :
  rows = 0 ∨ (cols = 0 ∧ 0 < rows ∧ length g = Z.to_nat rows) →
  get_live_neighbors h row col rows cols g = Raise ZeroDivisionError.
Proof.
  intros Hsize. apply get_live_neighbors_first_cell. unfold wrapped_cell.
  destruct Hsize as [-> | (-> & Hrows & Hlen)]; [done |].
  rewrite py_mod_pos by done. cbn [bind].
  pose proof (Z.mod_pos_bound (row + -1) rows Hrows) as Hr.
  destruct (lookup_lt_is_Some_2 g (Z.to_nat ((row + -1) `mod` rows)))
    as [l Hl]; [lia |].
  by rewrite (py_getitem_in_range g _ l) by (done || lia).
Qed.

Lemma get_live_neighbors_zero_size_witness :
  (0 = 0 ∨ (3 = 0 ∧ 0 < 0 ∧ length (first_grid line3) = Z.to_nat 0)) ∧
  get_live_neighbors (two_grids line3 junk3) 1 1 0 3 (first_grid line3)
    = Raise ZeroDivisionError.
Proof.
  assert (0 = 0 ∨ (3 = 0 ∧ 0 < 0 ∧ length (first_grid line3) = Z.to_nat 0))
    as Hsize by (left; reflexivity).
  split; [exact Hsize |].
  exact (get_live_neighbors_zero_size (two_grids line3 junk3) 1 1 0 3
           (first_grid line3) Hsize).
Defined.

(** X2. With no row or no column to visit ([rows <= 0] or [cols <= 0]) the
    loops of [create_next_grid] and [grid_changing] never reach a cell:
    [create_next_grid] returns the store as it was, [grid_changing] returns
    [False], and neither raises, whatever the two grids are. *)
Theorem empty_range_touches_nothing h rows cols (g ng : grid) :
  rows ≤ 0 ∨ cols ≤ 0 →
  create_next_grid h rows cols g ng = Ok h ∧
  grid_changing h rows cols g ng = Ok false.
Proof.
  intros Hsize. unfold create_next_grid, grid_changing, range.
  rewrite !Z.sub_0_r.
  destruct Hsize as [Hrows | Hcols].
  - by rewrite (seqZ_nil 0 rows) by done.
  - rewrite (seqZ_nil 0 cols) by done. split.
    + by apply for_each_skip.
    + by rewrite for_each_ret_skip.
Qed.

Lemma empty_range_touches_nothing_witness :
  (3 ≤ 0 ∨ 0 ≤ 0) ∧
  create_next_grid (two_grids line3 junk3) 3 0 (first_grid line3)
    (second_grid line3 junk3) = Ok (two_grids line3 junk3) ∧
  grid_changing (two_grids line3 junk3) 3 0 (first_grid line3)
    (second_grid line3 junk3) = Ok false.
Proof.
  assert (3 ≤ 0 ∨ 0 ≤ 0) as Hsize by (right; lia).
  split; [exact Hsize |].
  exact (empty_range_touches_nothing (two_grids line3 junk3) 3 0
           (first_grid line3) (second_grid line3 junk3) Hsize).
Defined.

(** X3. A current grid with fewer rows than [rows] is detected at the very
    first cell: for [rows], [cols] at least 1, the neighbour above row 0 is
    row [rows - 1], which the grid does not have, so [get_live_neighbors] at
    row 0 and [create_next_grid] raise [IndexError]. *)
Theorem short_grid_raises h rows cols col (g ng : grid) :
  1 ≤ rows → 1 ≤ cols → Z.of_nat (length g) < rows →
  get_live_neighbors h 0 col rows cols g = Raise IndexError ∧
  create_next_grid h rows cols g ng = Raise IndexError.
Proof.
  intros Hrows Hcols Hshort.
  assert (∀ c, get_live_neighbors h 0 c rows cols g = Raise IndexError)
    as Hcount.
  { intros c. apply get_live_neighbors_first_cell. unfold wrapped_cell.
    rewrite py_mod_pos by lia. cbn [bind].
    rewrite wrap_last by done.
    by rewrite py_getitem_out_of_range by lia. }
  split; [apply Hcount |].
  unfold create_next_grid, range. rewrite !Z.sub_0_r.
  rewrite (seqZ_cons 0 rows), (seqZ_cons 0 cols) by lia.
  cbn [for_each]. unfold update_cell at 1. by rewrite Hcount.
Qed.

Lemma short_grid_raises_witness :
  1 ≤ 5 ∧ 1 ≤ 3 ∧ Z.of_nat (length (first_grid line3)) < 5 ∧
  get_live_neighbors (two_grids line3 junk3) 0 1 5 3 (first_grid line3)
    = Raise IndexError ∧
  create_next_grid (two_grids line3 junk3) 5 3 (first_grid line3)
    (second_grid line3 junk3) = Raise IndexError.
Proof.
  assert (Z.of_nat (length (first_grid line3)) < 5) as Hshort
    by (vm_compute; reflexivity).
  split; [lia |]. split; [lia |]. split; [exact Hshort |].
  apply (short_grid_raises (two_grids line3 junk3) 5 3 1 (first_grid line3)
           (second_grid line3 junk3)); [lia | lia | exact Hshort].
Defined.

(** ** The stability test is symmetric *)

(** X4. [grid_changing] does not depend on the order of its two grids, and
    a grid never differs from itself (the same grid passed twice gives
    [False]). *)
Theorem grid_changing_symmetric h rows cols (a b : grid) :
  shape rows cols (rows_of h a) → shape rows cols (rows_of h b) →
  grid_changing h rows cols a b = grid_changing h rows cols b a ∧
  grid_changing h rows cols a a = Ok false.
Proof.
  intros Ha Hb.
  rewrite !grid_changing_scan by done.
  by rewrite differ_refl, (differ_sym rows cols (rows_of h a)).
Qed.

Lemma grid_changing_symmetric_witness :
  shape 3 3 (rows_of (two_grids line3 junk3) (first_grid line3)) ∧
  shape 3 3 (rows_of (two_grids line3 junk3) (second_grid line3 junk3)) ∧
  grid_changing (two_grids line3 junk3) 3 3 (first_grid line3)
    (second_grid line3 junk3) =
  grid_changing (two_grids line3 junk3) 3 3 (second_grid line3 junk3)
    (first_grid line3) ∧
  grid_changing (two_grids line3 junk3) 3 3 (first_grid line3)
    (first_grid line3) = Ok false.
Proof.
  assert (shape 3 3 (rows_of (two_grids line3 junk3) (first_grid line3)))
    as Ha by compute_done.
  assert (shape 3 3
            (rows_of (two_grids line3 junk3) (second_grid line3 junk3)))
    as Hb by compute_done.
  split; [exact Ha |]. split; [exact Hb |].
  exact (grid_changing_symmetric (two_grids line3 junk3) 3 3
           (first_grid line3) (second_grid line3 junk3) Ha Hb).
Defined.

(** ** Uniform grids *)

Lemma next_snapshot_shape m rows cols :
  shape rows cols (next_snapshot m rows cols).
Proof.
  unfold shape, next_snapshot, next_row, range. rewrite !Z.sub_0_r. split.
  - by rewrite length_fmap, length_seqZ.
  - apply Forall_fmap, Forall_forall. intros r _. simpl.
    by rewrite length_fmap, length_seqZ.
Qed.

Lemma uniform_shape rows cols v : shape rows cols (uniform rows cols v).
Proof.
  unfold shape, uniform. split; [by rewrite length_replicate |].
  apply Forall_replicate. by rewrite length_replicate.
Qed.

Lemma cell_uniform rows cols v r c :
  0 ≤ r < rows → 0 ≤ c < cols → cell (uniform rows cols v) r c = v.
Proof.
  intros Hr Hc. unfold cell, uniform.
  rewrite lookup_replicate_2 by lia. simpl.
  by rewrite lookup_replicate_2 by lia.
Qed.

Lemma live_sum_uniform rows cols v r c :
  0 < rows → 0 < cols → live_sum (uniform rows cols v) rows cols r c = 8 * v.
Proof.
  intros Hrows Hcols. unfold live_sum, neighbor_positions, offsets.
  cbn [fmap list_fmap foldl fst snd].
  rewrite !cell_uniform by (apply Z.mod_pos_bound; lia). lia.
Qed.

Lemma next_snapshot_uniform rows cols v :
  next_snapshot (uniform rows cols v) rows cols = uniform rows cols 0.
Proof.
  apply (snapshot_eq rows cols);
    [apply next_snapshot_shape | apply uniform_shape |].
  intros r c Hr Hc.
  rewrite cell_next_snapshot, live_sum_uniform, !cell_uniform by lia.
  unfold next_state.
  destruct (Z.ltb_spec (8 * v) 2); [done |].
  destruct (Z.gtb_spec (8 * v) 3); [done | lia].
Qed.

(** X5. A grid whose cells all hold the same value, dead or alive, is all
    dead one generation later, whatever its size: on the torus every cell
    then counts either no live neighbour or eight.  The all-dead grid is
    therefore stable: [grid_changing] returns [False] for it. *)
Theorem uniform_grid_dies h rows cols v (g ng : grid) :
  distinct_buffers h rows cols g ng →
  rows_of h g = uniform rows cols v →
  ∃ h', create_next_grid h rows cols g ng = Ok h' ∧
        rows_of h' ng = uniform rows cols 0 ∧
        (v = 0 → grid_changing h' rows cols g ng = Ok false).
Proof.
  intros Hbuf Hm.
  destruct (generation_step h rows cols g ng (uniform rows cols v)
              (uniform rows cols 0)
              (differ rows cols (uniform rows cols v) (uniform rows cols 0))
              Hbuf Hm)
    as (h' & Hrun & _ & Hng & Hch & _);
    [apply next_snapshot_uniform | done |].
  exists h'. split; [done |]. split; [done |].
  intros ->. by rewrite Hch, differ_refl.
Qed.

Lemma uniform_grid_dies_witness :
  distinct_buffers (two_grids (uniform 5 5 1) junk5) 5 5
    (first_grid (uniform 5 5 1)) (second_grid (uniform 5 5 1) junk5) ∧
  rows_of (two_grids (uniform 5 5 1) junk5) (first_grid (uniform 5 5 1))
    = uniform 5 5 1 ∧
  ∃ h', create_next_grid (two_grids (uniform 5 5 1) junk5) 5 5
          (first_grid (uniform 5 5 1)) (second_grid (uniform 5 5 1) junk5)
          = Ok h' ∧
        rows_of h' (second_grid (uniform 5 5 1) junk5) = uniform 5 5 0.
Proof.
  assert (distinct_buffers (two_grids (uniform 5 5 1) junk5) 5 5
            (first_grid (uniform 5 5 1))
            (second_grid (uniform 5 5 1) junk5)) as Hbuf by compute_done.
  assert (rows_of (two_grids (uniform 5 5 1) junk5)
            (first_grid (uniform 5 5 1)) = uniform 5 5 1)
    as Hm by (vm_compute; reflexivity).
  split; [exact Hbuf |]. split; [exact Hm |].
  destruct (uniform_grid_dies (two_grids (uniform 5 5 1) junk5) 5 5 1
              (first_grid (uniform 5 5 1))
              (second_grid (uniform 5 5 1) junk5) Hbuf Hm)
    as (h' & Hrun & Hng & _).
  exists h'. split; [exact Hrun | exact Hng].
Defined.

(** ** The torus has no edge: shifts commute with a generation *)

Lemma shift_shape rows cols a b m :
  shape rows cols m → shape rows cols (shift a b m).
Proof.
  intros [Hlen Hrows]. unfold shift. split.
  - by rewrite length_rotate, length_fmap.
  - apply Forall_forall. intros rw Hrw.
    apply elem_of_rotate, list_elem_of_fmap in Hrw as (rw' & -> & Hrw').
    rewrite length_rotate. rewrite Forall_forall in Hrows. by apply Hrows.
Qed.

Lemma cell_shift rows cols a b m r c :
  shape rows cols m → 0 ≤ r < rows → 0 ≤ c < cols →
  cell (shift a b m) r c =
    cell m ((r + Z.of_nat a) `mod` rows) ((c + Z.of_nat b) `mod` cols).
Proof.
  intros [Hlen Hrows] Hr Hc. unfold cell, shift.
  pose proof (Z.mod_pos_bound (r + Z.of_nat a) rows) as Hr'.
  pose proof (Z.mod_pos_bound (c + Z.of_nat b) cols) as Hc'.
  rewrite lookup_rotate_r by (rewrite length_fmap; lia).
  unfold rotate_nat_add. rewrite length_fmap, Hlen, !Z2Nat.id by lia.
  rewrite (Z.add_comm (Z.of_nat a) r), list_lookup_fmap.
  destruct (lookup_lt_is_Some_2 m (Z.to_nat ((r + Z.of_nat a) `mod` rows)))
    as [rw Hrw]; [lia |].
  rewrite Hrw. simpl. rewrite Forall_lookup in Hrows.
  pose proof (Hrows _ _ Hrw) as Hlenrw.
  rewrite lookup_rotate_r by lia.
  unfold rotate_nat_add. rewrite Hlenrw, !Z2Nat.id by lia.
  by rewrite (Z.add_comm (Z.of_nat b) c).
Qed.

Lemma wrap_shift r i a n :
  ((r + i) `mod` n + a) `mod` n = ((r + a) `mod` n + i) `mod` n.
Proof. rewrite !Zplus_mod_idemp_l. f_equal. lia. Qed.

Lemma live_sum_shift rows cols a b m r c :
  shape rows cols m → 0 ≤ r < rows → 0 ≤ c < cols →
  live_sum (shift a b m) rows cols r c =
    live_sum m rows cols ((r + Z.of_nat a) `mod` rows)
                         ((c + Z.of_nat b) `mod` cols).
Proof.
  intros Hm Hr Hc. unfold live_sum, neighbor_positions, offsets.
  cbn [fmap list_fmap foldl fst snd].
  rewrite !(cell_shift rows cols) by (done || apply Z.mod_pos_bound; lia).
  by rewrite !(wrap_shift r _ (Z.of_nat a)), !(wrap_shift c _ (Z.of_nat b)).
Qed.

Lemma next_snapshot_shift rows cols a b m :
  shape rows cols m →
  next_snapshot (shift a b m) rows cols = shift a b (next_snapshot m rows cols).
Proof.
  intros Hm. apply (snapshot_eq rows cols);
    [apply next_snapshot_shape | apply shift_shape, next_snapshot_shape |].
  intros r c Hr Hc.
  rewrite (cell_shift rows cols a b (next_snapshot m rows cols))
    by (done || apply next_snapshot_shape).
  rewrite !cell_next_snapshot by (done || apply Z.mod_pos_bound; lia).
  by rewrite (live_sum_shift rows cols), (cell_shift rows cols) by done.
Qed.

(** X6. A generation commutes with moving the pattern around the torus:
    when one current grid is another one shifted by [a] rows and [b]
    columns (with wrap-around), [create_next_grid] writes for it the next
    grid of the other, shifted the same way.  No cell is treated as an edge
    cell. *)
Theorem create_next_grid_commutes_with_shift
    a b h1 h2 rows cols (g1 ng1 g2 ng2 : grid) :
  distinct_buffers h1 rows cols g1 ng1 →
  distinct_buffers h2 rows cols g2 ng2 →
  rows_of h2 g2 = shift a b (rows_of h1 g1) →
  ∃ h1' h2', create_next_grid h1 rows cols g1 ng1 = Ok h1' ∧
             create_next_grid h2 rows cols g2 ng2 = Ok h2' ∧
             rows_of h2' ng2 = shift a b (rows_of h1' ng1).
Proof.
  intros (Hg1 & Hng1 & Hsep1 & Hnd1) (Hg2 & Hng2 & Hsep2 & Hnd2) Heq.
  destruct (create_next_grid_spec h1 rows cols g1 ng1 Hg1 Hng1 Hsep1)
    as (h1' & Hrun1 & _ & _ & _ & Hnew1).
  destruct (create_next_grid_spec h2 rows cols g2 ng2 Hg2 Hng2 Hsep2)
    as (h2' & Hrun2 & _ & _ & _ & Hnew2).
  exists h1', h2'. split; [done |]. split; [done |].
  rewrite (Hnew1 Hnd1), (Hnew2 Hnd2), Heq.
  by apply next_snapshot_shift.
Qed.

Lemma create_next_grid_commutes_with_shift_witness :
  distinct_buffers (two_grids blinker5 junk5) 5 5 (first_grid blinker5)
    (second_grid blinker5 junk5) ∧
  distinct_buffers (two_grids (shift 4 2 blinker5) block5) 5 5
    (first_grid (shift 4 2 blinker5))
    (second_grid (shift 4 2 blinker5) block5) ∧
  rows_of (two_grids (shift 4 2 blinker5) block5)
    (first_grid (shift 4 2 blinker5)) =
  shift 4 2 (rows_of (two_grids blinker5 junk5) (first_grid blinker5)) ∧
  ∃ h1' h2',
    create_next_grid (two_grids blinker5 junk5) 5 5 (first_grid blinker5)
      (second_grid blinker5 junk5) = Ok h1' ∧
    create_next_grid (two_grids (shift 4 2 blinker5) block5) 5 5
      (first_grid (shift 4 2 blinker5))
      (second_grid (shift 4 2 blinker5) block5) = Ok h2' ∧
    rows_of h2' (second_grid (shift 4 2 blinker5) block5) =
      shift 4 2 (rows_of h1' (second_grid blinker5 junk5)).
Proof.
  assert (distinct_buffers (two_grids blinker5 junk5) 5 5
            (first_grid blinker5) (second_grid blinker5 junk5))
    as H1 by compute_done.
  assert (distinct_buffers (two_grids (shift 4 2 blinker5) block5) 5 5
            (first_grid (shift 4 2 blinker5))
            (second_grid (shift 4 2 blinker5) block5))
    as H2 by compute_done.
  assert (rows_of (two_grids (shift 4 2 blinker5) block5)
            (first_grid (shift 4 2 blinker5)) =
          shift 4 2 (rows_of (two_grids blinker5 junk5)
                       (first_grid blinker5)))
    as Heq by (vm_compute; reflexivity).
  split; [exact H1 |]. split; [exact H2 |]. split; [exact Heq |].
  exact (create_next_grid_commutes_with_shift 4 2
           (two_grids blinker5 junk5) (two_grids (shift 4 2 blinker5) block5)
           5 5 (first_grid blinker5) (second_grid blinker5 junk5)
           (first_grid (shift 4 2 blinker5))
           (second_grid (shift 4 2 blinker5) block5) H1 H2 Heq).
Defined.

(** ** Seeding: objects and draws *)

Lemma create_initial_row_draws randint cols k :
  create_initial_row randint cols k =
    (drawn_row randint cols k, (k + Z.to_nat cols)%nat).
Proof.
  unfold create_initial_row, drawn_row.
  assert (∀ xs acc k,
            foldl (λ '(grid_rows, k) (col : Z),
                     if randint k =? 0 then (grid_rows ++ [1], S k)
                     else (grid_rows ++ [0], S k))
                  (acc, k) xs =
            (acc ++ ((λ j, if randint (k + j)%nat =? 0 then 1 else 0)
                       <$> seq 0 (length xs)),
             (k + length xs)%nat)) as Hfold.
  { induction xs as [| x xs IH]; intros acc k0; cbn [foldl length].
    - cbn [seq fmap list_fmap]. by rewrite app_nil_r, Nat.add_0_r.
    - cbn [seq fmap list_fmap]. rewrite <- fmap_S_seq, <- list_fmap_compose.
      rewrite Nat.add_0_r.
      assert (((λ j, if randint (k0 + j)%nat =? 0 then 1 else 0) ∘ S
                 <$> seq 0 (length xs)) =
              ((λ j, if randint (S k0 + j)%nat =? 0 then 1 else 0)
                 <$> seq 0 (length xs))) as ->.
      { apply list_fmap_ext. intros i j _. cbn.
        by replace (k0 + S j)%nat with (S (k0 + j))%nat by lia. }
      destruct (randint k0 =? 0); rewrite IH, <- app_assoc; cbn [app];
        f_equal; lia. }
  rewrite Hfold. cbn [app]. unfold range.
  by rewrite length_seqZ, Z.sub_0_r.
Qed.

Lemma rows_of_alloc (h : heap) (g : grid) rw :
  fresh (dom h) ∉ g →
  rows_of (<[fresh (dom h) := rw]> h) (g ++ [fresh (dom h)]) =
    rows_of h g ++ [rw].
Proof.
  intros Hnew. unfold rows_of. rewrite fmap_app. cbn [fmap list_fmap].
  rewrite row_at_insert. f_equal. apply (rows_of_agree h).
  intros l Hl. apply lookup_insert_ne. intros Heq. apply Hnew.
  by rewrite Heq.
Qed.

Lemma seeded_fresh h0 cols (g : grid) (h : heap) :
  seeded h0 cols g h → fresh (dom h) ∉ g.
Proof.
  intros (_ & Hin & _) Hg. rewrite Forall_forall in Hin.
  destruct (Hin _ Hg) as [Hdom _]. by apply (is_fresh (dom h)).
Qed.

Lemma create_initial_grid_contents randint rows cols h0 k :
  rows_of (create_initial_grid randint rows cols h0 k).1.2
          (create_initial_grid randint rows cols h0 k).1.1
    = drawn_grid randint rows cols k ∧
  (create_initial_grid randint rows cols h0 k).2
    = (k + Z.to_nat rows * Z.to_nat cols)%nat.
Proof.
  unfold create_initial_grid, drawn_grid.
  assert (∀ xs (g : grid) (h : heap) k,
            seeded h0 cols g h →
            rows_of
              (foldl (λ '(g, h, k) (row : Z),
                        let '(grid_rows, k) := create_initial_row randint cols k in
                        let '(l, h) := alloc h grid_rows in
                        (g ++ [l], h, k))
                     (g, h, k) xs).1.2
              (foldl (λ '(g, h, k) (row : Z),
                        let '(grid_rows, k) := create_initial_row randint cols k in
                        let '(l, h) := alloc h grid_rows in
                        (g ++ [l], h, k))
                     (g, h, k) xs).1.1
            = rows_of h g ++
              ((λ i, drawn_row randint cols (k + i * Z.to_nat cols)%nat)
                 <$> seq 0 (length xs)) ∧
            (foldl (λ '(g, h, k) (row : Z),
                        let '(grid_rows, k) := create_initial_row randint cols k in
                        let '(l, h) := alloc h grid_rows in
                        (g ++ [l], h, k))
                     (g, h, k) xs).2
            = (k + length xs * Z.to_nat cols)%nat) as Hfold.
  { induction xs as [| x xs IH]; intros g h k0 Hseed; cbn [foldl length].
    - cbn [seq fmap list_fmap fst snd]. rewrite app_nil_r. split; [done | lia].
    - pose proof (create_initial_row_spec randint cols k0) as [Hlen Hbits].
      rewrite create_initial_row_draws in *. cbn [fst snd] in Hlen, Hbits.
      destruct (IH (g ++ [fresh (dom h)])
                  (<[fresh (dom h) := drawn_row randint cols k0]> h)
                  (k0 + Z.to_nat cols)%nat) as [Hrows Hk];
        [by apply seeded_alloc |].
      split.
      + etransitivity; [exact Hrows |].
        rewrite rows_of_alloc by (by eapply seeded_fresh).
        rewrite <- app_assoc. f_equal. cbn [app seq fmap list_fmap].
        rewrite Nat.add_0_r. f_equal.
        rewrite <- fmap_S_seq, <- list_fmap_compose.
        apply list_fmap_ext. intros i j _. cbn. f_equal. lia.
      + etransitivity; [exact Hk |]. lia. }
  destruct (Hfold (range 0 rows) [] h0 k) as [Hrows Hk].
  { split; [apply NoDup_nil_2 |]. split; [done |]. split; [done |]. done. }
  unfold range in Hrows, Hk. rewrite length_seqZ in Hrows, Hk.
  replace (Z.to_nat (rows - 0)) with (Z.to_nat rows) in Hrows, Hk by lia.
  split; [exact Hrows | exact Hk].
Qed.

Lemma cell_drawn_grid randint rows cols k r c :
  0 ≤ r < rows → 0 ≤ c < cols →
  cell (drawn_grid randint rows cols k) r c =
    if randint (k + Z.to_nat r * Z.to_nat cols + Z.to_nat c)%nat =? 0
    then 1 else 0.
Proof.
  intros Hr Hc. unfold cell, drawn_grid, drawn_row.
  rewrite list_lookup_fmap, lookup_seq_lt by lia. simpl.
  by rewrite list_lookup_fmap, lookup_seq_lt by lia.
Qed.

Lemma seeded_grids_distinct randint rows cols h k :
  rows_of (create_initial_grid randint rows cols
             (create_initial_grid randint rows cols h k).1.2
             (create_initial_grid randint rows cols h k).2).1.2
          (create_initial_grid randint rows cols h k).1.1
    = rows_of (create_initial_grid randint rows cols h k).1.2
              (create_initial_grid randint rows cols h k).1.1.
Proof.
  pose proof (create_initial_grid_seeded randint rows cols h k) as [Hs1 _].
  destruct (create_initial_grid randint rows cols h k) as [[g1 h1] k1].
  cbn [fst snd] in *.
  pose proof (create_initial_grid_seeded randint rows cols h1 k1) as [Hs2 _].
  destruct (create_initial_grid randint rows cols h1 k1) as [[g2 h2] k2].
  cbn [fst snd] in *.
  apply rows_of_agree. intros l Hl.
  destruct Hs1 as (_ & Hin & _), Hs2 as (_ & _ & _ & Hold & _).
  rewrite Forall_forall in Hin. apply Hold. by apply Hin.
Qed.

(** X7. [create_initial_grid] makes one draw per cell, row after row: it
    advances the random source by [rows * cols] draws, and the cell at
    [(r, c)] of the grid it returns is alive exactly when the draw number
    [r * cols + c] of the call is 0, dead otherwise. *)
Theorem create_initial_grid_follows_draws randint rows cols h k :
  (create_initial_grid randint rows cols h k).2
    = (k + Z.to_nat rows * Z.to_nat cols)%nat ∧
  ∀ r c, 0 ≤ r < rows → 0 ≤ c < cols →
    load (create_initial_grid randint rows cols h k).1.2
         (create_initial_grid randint rows cols h k).1.1 r c
      = Ok (if randint (k + Z.to_nat r * Z.to_nat cols + Z.to_nat c)%nat =? 0
            then 1 else 0).
Proof.
  destruct (create_initial_grid_contents randint rows cols h k)
    as [Hrows Hk].
  destruct (create_initial_grid_seeded randint rows cols h k)
    as [Hseed Hlen].
  split; [done |]. intros r c Hr Hc.
  rewrite (load_in_range _ _ rows cols) by (done || by eapply seeded_shape).
  by rewrite Hrows, cell_drawn_grid.
Qed.

(** X8. The two grids that [run_game] seeds one after the other are
    distinct buffers in either role: each is made of [rows] pairwise
    distinct new row objects of [cols] cells, no row object belongs to both,
    and the second call leaves the rows of the first grid as they were.
    This is what [create_next_grid] needs of its two arguments. *)
Theorem seeded_grids_are_distinct_buffers randint rows cols h k :
  let first := create_initial_grid randint rows cols h k in
  let second := create_initial_grid randint rows cols first.1.2 first.2 in
  distinct_buffers second.1.2 rows cols first.1.1 second.1.1 ∧
  distinct_buffers second.1.2 rows cols second.1.1 first.1.1 ∧
  rows_of second.1.2 first.1.1 = rows_of first.1.2 first.1.1 ∧
  ∀ l, l ∈ dom h → second.1.2 !! l = h !! l.
Proof.
  intros first second. unfold second, first.
  pose proof (create_initial_grid_seeded randint rows cols h k)
    as [Hs1 Hl1].
  destruct (create_initial_grid randint rows cols h k) as [[g1 h1] k1].
  cbn [fst snd] in *.
  pose proof (create_initial_grid_seeded randint rows cols h1 k1)
    as [Hs2 Hl2].
  destruct (create_initial_grid randint rows cols h1 k1) as [[g2 h2] k2].
  cbn [fst snd] in *.
  assert (rows_of h2 g1 = rows_of h1 g1) as Hsame.
  { apply rows_of_agree. intros l Hl.
    destruct Hs1 as (_ & Hin & _), Hs2 as (_ & _ & _ & Hold & _).
    rewrite Forall_forall in Hin. apply Hold. by apply Hin. }
  assert (separate g1 g2) as Hsep.
  { destruct Hs1 as (_ & Hin1 & _), Hs2 as (_ & Hin2 & _).
    unfold separate. rewrite Forall_forall in Hin1, Hin2 |- *.
    intros l Hl Hl'. destruct (Hin2 l Hl) as [_ Hnew]. apply Hnew.
    by apply Hin1. }
  assert (shape rows cols (rows_of h2 g1)) as Hg1.
  { rewrite Hsame. by eapply seeded_shape. }
  assert (shape rows cols (rows_of h2 g2)) as Hg2
    by (by eapply seeded_shape).
  split; [| split; [| split]].
  - split; [done |]. split; [done |]. split; [done |]. by destruct Hs2.
  - split; [done |]. split; [done |].
    split; [by apply separate_sym |]. by destruct Hs1.
  - done.
  - intros l Hl.
    destruct Hs1 as (_ & _ & _ & Hold1 & Hsub1),
             Hs2 as (_ & _ & _ & Hold2 & _).
    rewrite Hold2 by (by apply Hsub1). by apply Hold1.
Qed.

(** ** What [print_grid] shows *)

Lemma string_app_cons a (s t : string) :
  String a s +:+ t = String a (s +:+ t).
Proof. reflexivity. Qed.

Lemma string_app_assoc (s1 s2 s3 : string) :
  (s1 +:+ s2) +:+ s3 = s1 +:+ (s2 +:+ s3).
Proof.
  induction s1 as [| a s1 IH]; [done |].
  rewrite !string_app_cons. by f_equal.
Qed.

Lemma string_app_nil_r (s : string) : s +:+ "" = s.
Proof.
  induction s as [| a s IH]; [done |]. rewrite string_app_cons. by f_equal.
Qed.

Lemma string_length_app (s1 s2 : string) :
  String.length (s1 +:+ s2) = (String.length s1 + String.length s2)%nat.
Proof.
  induction s1 as [| a s1 IH]; [done |].
  rewrite string_app_cons. simpl. by f_equal.
Qed.

Lemma for_each_pure {S} (xs : list Z) (body : Z → S → result S)
    (f : S → Z → S) :
  (∀ x s, x ∈ xs → body x s = Ok (f s x)) →
  ∀ s, for_each xs body s = Ok (foldl f s xs).
Proof.
  induction xs as [| x xs IH]; intros Hbody s; [done |].
  cbn [for_each foldl]. rewrite Hbody by left. cbn [bind].
  apply IH. intros y t Hy. apply Hbody. by right.
Qed.

Lemma foldl_append {A} (f : A → string) (l : list A) (out tail : string) :
  foldl (λ s x, s +:+ f x) out l +:+ tail =
    out +:+ foldr (λ x s, f x +:+ s) tail l.
Proof.
  revert out. induction l as [| x l IH]; intros out; [done |].
  cbn [foldl foldr]. by rewrite IH, string_app_assoc.
Qed.

(** A snapshot is the table of its in-range cells. *)
Lemma snapshot_cells rows cols m :
  shape rows cols m →
  (λ r, (λ c, cell m r c) <$> range 0 cols) <$> range 0 rows = m.
Proof.
  intros Hm. apply (snapshot_eq rows cols); [| done |].
  - unfold shape, range. rewrite !Z.sub_0_r. split.
    + by rewrite length_fmap, length_seqZ.
    + apply Forall_fmap, Forall_forall. intros r _. simpl.
      by rewrite length_fmap, length_seqZ.
  - intros r c Hr Hc. unfold cell at 1, range.
    rewrite !Z.sub_0_r, list_lookup_fmap, lookup_seqZ_lt by lia. simpl.
    rewrite list_lookup_fmap, lookup_seqZ_lt by lia. simpl.
    by rewrite !Z2Nat.id by lia.
Qed.

Lemma print_grid_picture h rows cols (g : grid) n :
  shape rows cols (rows_of h g) →
  print_grid h rows cols g n = Ok (Frame n (picture (rows_of h g))).
Proof.
  intros Hshape. unfold print_grid.
  rewrite (for_each_pure (range 0 rows) _
             (λ s r, s +:+ picture_line
                             ((λ c, cell (rows_of h g) r c) <$> range 0 cols))).
  - cbn [bind]. do 2 f_equal.
    rewrite <- (string_app_nil_r (foldl _ _ _)), foldl_append.
    change ("" +:+ ?s) with s.
    transitivity
      (picture ((λ r, (λ c, cell (rows_of h g) r c) <$> range 0 cols)
                  <$> range 0 rows)).
    + unfold picture. by rewrite foldr_fmap.
    + by rewrite (snapshot_cells rows cols).
  - intros r out Hr. apply elem_of_seqZ in Hr.
    rewrite (for_each_pure (range 0 cols) _
               (λ s c, s +:+ glyph (cell (rows_of h g) r c))).
    + cbn [bind]. f_equal. rewrite foldl_append.
      unfold picture_line. by rewrite foldr_fmap.
    + intros c s Hc. apply elem_of_seqZ in Hc.
      rewrite (load_in_range h g rows cols Hshape) by lia. cbn [bind].
      unfold glyph. by destruct (_ =? 0).
Qed.

Lemma picture_line_length rw :
  String.length (picture_line rw) = (2 * length rw + 2)%nat.
Proof.
  induction rw as [| v rw IH]; [done |].
  cbn [picture_line foldr length]. fold (picture_line rw).
  rewrite string_length_app, IH. unfold glyph.
  destruct (v =? 0); cbn; lia.
Qed.

Lemma picture_length rows cols m :
  shape rows cols m →
  String.length (picture m)
    = (Z.to_nat rows * (2 * Z.to_nat cols + 2))%nat.
Proof.
  intros [Hlen Hrows]. rewrite <- Hlen. clear Hlen.
  induction Hrows as [| rw m Hrw Hrows IH]; [done |].
  cbn [picture foldr length]. fold (picture m).
  rewrite string_length_app, picture_line_length, IH, Hrw. lia.
Qed.

Lemma glyph_inj v v' s s' :
  (v = 0 ∨ v = 1) → (v' = 0 ∨ v' = 1) →
  glyph v +:+ s = glyph v' +:+ s' → v = v' ∧ s = s'.
Proof.
  unfold glyph. intros [-> | ->] [-> | ->]; cbn; intros [=]; by subst.
Qed.

Lemma picture_line_inj rw rw' s s' :
  length rw = length rw' →
  Forall (λ v, v = 0 ∨ v = 1) rw → Forall (λ v, v = 0 ∨ v = 1) rw' →
  picture_line rw +:+ s = picture_line rw' +:+ s' → rw = rw' ∧ s = s'.
Proof.
  revert rw'. induction rw as [| v rw IH]; intros [| v' rw'] Hlen Hb Hb';
    try discriminate Hlen.
  - cbn. intros [=]. by subst.
  - cbn [picture_line foldr]. fold (picture_line rw) (picture_line rw').
    rewrite !string_app_assoc. intros Heq.
    apply Forall_cons in Hb as [Hv Hb]. apply Forall_cons in Hb' as [Hv' Hb'].
    apply glyph_inj in Heq as [-> Heq]; [| done | done].
    apply IH in Heq as [-> ->]; [done | | done | done].
    by injection Hlen.
Qed.

Lemma picture_inj rows cols a b :
  shape rows cols a → shape rows cols b → binary a → binary b →
  picture a = picture b → a = b.
Proof.
  intros [Hla Ha] [Hlb Hb] Hba Hbb. rewrite <- Hla in Hlb. clear Hla.
  revert b Hlb Hb Hbb.
  induction a as [| rw a IH]; intros [| rw' b] Hlen Hb Hbb;
    try discriminate Hlen; [done |].
  cbn [picture foldr]. fold (picture a) (picture b). intros Heq.
  apply Forall_cons in Ha as [Hrw Ha]. apply Forall_cons in Hb as [Hrw' Hb].
  apply Forall_cons in Hba as [Hbrw Hba].
  apply Forall_cons in Hbb as [Hbrw' Hbb].
  apply picture_line_inj in Heq as [-> Heq]; [| congruence | done | done].
  f_equal. apply IH; try done. by injection Hlen.
Qed.

(** X9. [print_grid] shows the grid cell for cell: on a grid of [rows] by
    [cols] cells it raises nothing, its text is one line per row, each line
    made of two characters per cell (". " for a cell equal to 0, "@ " for any
    other value) followed by the end of the line, so the text has
    [rows * (2 * cols + 2)] characters. *)
Theorem print_grid_shows_every_cell h rows cols (g : grid) n :
  shape rows cols (rows_of h g) →
  ∃ f, print_grid h rows cols g n = Ok f ∧
       frame_generation f = n ∧
       frame_text f = picture (rows_of h g) ∧
       String.length (frame_text f)
         = (Z.to_nat rows * (2 * Z.to_nat cols + 2))%nat.
Proof.
  intros Hshape. eexists. split; [by apply print_grid_picture |].
  split; [done |]. split; [done |]. by apply picture_length.
Qed.

Lemma print_grid_shows_every_cell_witness :
  shape 3 3 (rows_of (two_grids line3 junk3) (second_grid line3 junk3)) ∧
  ∃ f, print_grid (two_grids line3 junk3) 3 3 (second_grid line3 junk3) 7
         = Ok f ∧
       frame_generation f = 7 ∧
       frame_text f
         = picture (rows_of (two_grids line3 junk3)
                      (second_grid line3 junk3)) ∧
       String.length (frame_text f) = 24%nat.
Proof.
  assert (shape 3 3
            (rows_of (two_grids line3 junk3) (second_grid line3 junk3)))
    as Hshape by compute_done.
  split; [exact Hshape |].
  exact (print_grid_shows_every_cell (two_grids line3 junk3) 3 3
           (second_grid line3 junk3) 7 Hshape).
Defined.

(** X10. On grids of binary cells the text of [print_grid] loses nothing:
    two grids of the same size whose frames have the same text hold the
    same cells. *)
Theorem print_grid_text_determines_grid h h' rows cols (g g' : grid) n n' f f' :
  shape rows cols (rows_of h g) → shape rows cols (rows_of h' g') →
  binary (rows_of h g) → binary (rows_of h' g') →
  print_grid h rows cols g n = Ok f →
  print_grid h' rows cols g' n' = Ok f' →
  frame_text f = frame_text f' →
  rows_of h g = rows_of h' g'.
Proof.
  intros Hg Hg' Hb Hb' Hf Hf' Htext.
  rewrite print_grid_picture in Hf, Hf' by done.
  injection Hf as <-. injection Hf' as <-. cbn in Htext.
  by apply (picture_inj rows cols).
Qed.

Lemma print_grid_text_determines_grid_witness :
  rows_of (two_grids blinker5 junk5) (first_grid blinker5) =
  rows_of (two_grids junk5 blinker5) (second_grid junk5 blinker5).
Proof.
  assert (shape 5 5 (rows_of (two_grids blinker5 junk5) (first_grid blinker5)))
    as Hg by compute_done.
  assert (shape 5 5
            (rows_of (two_grids junk5 blinker5) (second_grid junk5 blinker5)))
    as Hg' by compute_done.
  assert (binary (rows_of (two_grids blinker5 junk5) (first_grid blinker5)))
    as Hb by compute_done.
  assert (binary
            (rows_of (two_grids junk5 blinker5) (second_grid junk5 blinker5)))
    as Hb' by compute_done.
  exact (print_grid_text_determines_grid
           (two_grids blinker5 junk5) (two_grids junk5 blinker5) 5 5
           (first_grid blinker5) (second_grid junk5 blinker5) 1 2
           (Frame 1 (picture blinker5)) (Frame 2 (picture blinker5))
           Hg Hg' Hb Hb'
           ltac:(vm_compute; reflexivity) ltac:(vm_compute; reflexivity)
           eq_refl).
Defined.

(** ** The frames of a run *)

Lemma generation_succ rows cols m n :
  generation rows cols (next_snapshot m rows cols) n
    = generation rows cols m (S n).
Proof. unfold generation. by rewrite Nat.iter_succ_r. Qed.

Lemma running_step_snapshot rows cols h (cur nxt : grid) n fs :
  running rows cols (Game h cur nxt n fs) →
  ∃ h', create_next_grid h rows cols cur nxt = Ok h' ∧
        rows_of h' cur = rows_of h cur ∧
        rows_of h' nxt = next_snapshot (rows_of h cur) rows cols ∧
        ∀ n' fs', running rows cols (Game h' nxt cur n' fs').
Proof.
  intros Hst. pose proof Hst as ((Hcur & Hnxt & Hsep & Hndn) & _).
  cbn [store_of current_generation next_generation] in *.
  destruct (create_next_grid_spec h rows cols cur nxt Hcur Hnxt Hsep)
    as (h' & Hrun & Hcur' & _ & _ & Hnew).
  destruct (running_step rows cols h cur nxt n fs Hst) as (h'' & Hrun' & Hst').
  rewrite Hrun in Hrun'. injection Hrun' as <-.
  exists h'. split; [done |]. split; [done |]. split; [by apply Hnew | done].
Qed.

Lemma generation_loop_orbit rows cols gens :
  ∀ st, running rows cols st →
    ∃ st' k,
      generation_loop rows cols gens st = Ok st' ∧
      running rows cols st' ∧
      (k ≤ length gens)%nat ∧
      frame_text <$> printed st' =
        (frame_text <$> printed st) ++
        ((λ i, picture (generation rows cols
                          (rows_of (store_of st) (current_generation st)) i))
           <$> seq 0 k) ∧
      rows_of (store_of st') (current_generation st') =
        generation rows cols
          (rows_of (store_of st) (current_generation st)) k ∧
      (k = 0%nat →
       rows_of (store_of st') (next_generation st') =
         rows_of (store_of st) (next_generation st)) ∧
      (0 < k →
       rows_of (store_of st') (next_generation st') =
         generation rows cols
           (rows_of (store_of st) (current_generation st)) (k - 1))%nat ∧
      (k < length gens →
       rows_of (store_of st') (current_generation st') =
         rows_of (store_of st') (next_generation st'))%nat ∧
      (rows_of (store_of st) (current_generation st) =
         rows_of (store_of st) (next_generation st) → k = 0%nat).
Proof.
  induction gens as [| n gens IH]; intros st Hst.
  - exists st, 0%nat. cbn [seq fmap list_fmap length].
    rewrite app_nil_r. split; [done |]. split; [done |]. split; [lia |].
    split; [done |]. split; [done |]. split; [done |].
    split; [intros; lia |]. split; [intros; lia | done].
  - destruct st as [h cur nxt g0 fs]. cbn [generation_loop store_of
      current_generation next_generation printed].
    pose proof Hst as ((Hcur & Hnxt & _) & _).
    cbn [store_of current_generation next_generation] in Hcur, Hnxt.
    rewrite (grid_changing_scan h rows cols cur nxt Hcur Hnxt). cbn [bind].
    destruct (differ rows cols (rows_of h cur) (rows_of h nxt)) eqn:Hd;
      cbn [negb].
    + rewrite (print_grid_picture h rows cols cur n Hcur). cbn [bind].
      destruct (running_step_snapshot rows cols h cur nxt g0 fs Hst)
        as (h' & -> & Hcur' & Hnxt' & Hst').
      cbn [bind].
      destruct (IH (Game h' nxt cur n
                      (fs ++ [Frame n (picture (rows_of h cur))]))
                  (Hst' _ _))
        as (st' & k & Hloop & Hrun & Hk & Htexts & Hcurk & Hk0 & Hkpos
            & Hstop & _).
      cbn [store_of current_generation next_generation printed] in *.
      rewrite Hnxt' in Htexts, Hcurk, Hkpos.
      exists st', (S k). split; [done |]. split; [done |].
      split; [cbn [length]; lia |]. split; [| split; [| split; [| split]]].
      * rewrite Htexts, fmap_app, <- app_assoc. f_equal.
        cbn [fmap list_fmap frame_text app seq]. f_equal.
        rewrite <- fmap_S_seq, <- list_fmap_compose.
        apply list_fmap_ext. intros i j _. cbn.
        by rewrite generation_succ.
      * by rewrite Hcurk, generation_succ.
      * lia.
      * intros _. replace (S k - 1)%nat with k by lia.
        destruct k as [| k].
        -- by rewrite Hk0, Hcur'.
        -- rewrite Hkpos by lia. rewrite generation_succ.
           f_equal. lia.
      * split; [cbn [length]; intros Hlt; apply Hstop; lia |].
        intros Heq. rewrite Heq, differ_refl in Hd. discriminate Hd.
    + exists (Game h cur nxt n fs), 0%nat.
      cbn [store_of current_generation next_generation printed seq fmap
           list_fmap length].
      rewrite app_nil_r. split; [done |]. split; [exact Hst |].
      split; [lia |]. split; [done |]. split; [done |]. split; [done |].
      split; [lia |]. split; [| done].
      intros _. by apply (differ_false rows cols).
Qed.

Lemma initial_game_contents randint rows cols :
  rows_of (store_of (initial_game randint rows cols))
          (current_generation (initial_game randint rows cols))
    = drawn_grid randint rows cols 0 ∧
  rows_of (store_of (initial_game randint rows cols))
          (next_generation (initial_game randint rows cols))
    = drawn_grid randint rows cols (Z.to_nat rows * Z.to_nat cols).
Proof.
  unfold initial_game.
  pose proof (create_initial_grid_contents randint rows cols ∅ 0)
    as [Hc1 Hk1].
  pose proof (seeded_grids_distinct randint rows cols ∅ 0) as Hsame.
  destruct (create_initial_grid randint rows cols ∅ 0) as [[cur h1] k1].
  cbn [fst snd] in *.
  pose proof (create_initial_grid_contents randint rows cols h1 k1)
    as [Hc2 _].
  destruct (create_initial_grid randint rows cols h1 k1) as [[nxt h2] k2].
  cbn [fst snd store_of current_generation next_generation] in *.
  split; [by rewrite Hsame |]. by rewrite Hc2, Hk1.
Qed.

Lemma run_game_trace randint rows cols generations :
  ∃ frames k,
    run_game randint rows cols generations = Ok frames ∧
    (k ≤ Z.to_nat generations)%nat ∧
    frame_text <$> frames =
      (λ i, picture (generation rows cols (drawn_grid randint rows cols 0) i))
        <$> seq 0 (S k) ∧
    (k = 0%nat → 1 ≤ generations →
     drawn_grid randint rows cols 0 =
       drawn_grid randint rows cols (Z.to_nat rows * Z.to_nat cols)) ∧
    (drawn_grid randint rows cols 0 =
       drawn_grid randint rows cols (Z.to_nat rows * Z.to_nat cols) →
     k = 0%nat) ∧
    (0 < k < Z.to_nat generations →
     generation rows cols (drawn_grid randint rows cols 0) k =
       generation rows cols (drawn_grid randint rows cols 0) (k - 1))%nat.
Proof.
  unfold run_game.
  destruct (initial_game_running randint rows cols) as (Hinit & _).
  destruct (initial_game_contents randint rows cols) as [Hm0 Hm1].
  destruct (generation_loop_orbit rows cols (range 1 (generations + 1))
              (initial_game randint rows cols) Hinit)
    as (st & k & -> & Hst & Hk & Htexts & Hcur & Hk0 & Hkpos & Hstop & Hsame).
  unfold range in Hk, Hstop. rewrite length_seqZ in Hk, Hstop.
  replace (Z.to_nat (generations + 1 - 1)) with (Z.to_nat generations)
    in Hk, Hstop by lia.
  rewrite Hm0 in Htexts, Hcur, Hkpos, Hsame. rewrite Hm1 in Hk0, Hsame.
  assert (printed (initial_game randint rows cols) = []) as Hnone.
  { unfold initial_game.
    destruct (create_initial_grid randint rows cols ∅ 0) as [[cur h1] k1].
    by destruct (create_initial_grid randint rows cols h1 k1) as [[nxt h2] k2]. }
  rewrite Hnone in Htexts. cbn [fmap list_fmap app] in Htexts.
  cbn [bind]. pose proof Hst as ((Hshape & _) & _).
  rewrite (print_grid_picture _ rows cols _ _ Hshape). cbn [bind].
  eexists _, k. split; [done |]. split; [done |]. split.
  { rewrite fmap_app, Htexts, seq_S, fmap_app.
    cbn [fmap list_fmap frame_text]. by rewrite Hcur. }
  split; [| split; [done |]].
  - intros -> Hgen. rewrite <- Hcur at 1. rewrite Hstop by lia.
    by apply Hk0.
  - intros [Hpos Hlt]. rewrite <- Hcur, Hstop by done. by apply Hkpos.
Qed.

(** X11. A run shows the successive generations of the seeded grid.
    Whatever the sizes, the limit and the draws, [run_game] raises nothing
    and prints between 1 and [generations + 1] frames, and its frame number
    [i] (from 0) is the picture of the grid that [create_initial_grid] drew
    first, advanced by [i] generations. *)
Theorem run_game_shows_successive_generations randint rows cols generations :
  ∃ frames,
    run_game randint rows cols generations = Ok frames ∧
    (1 ≤ length frames ≤ S (Z.to_nat generations))%nat ∧
    ∀ i f, frames !! i = Some f →
      frame_text f =
        picture (generation rows cols (drawn_grid randint rows cols 0) i).
Proof.
  destruct (run_game_trace randint rows cols generations)
    as (frames & k & Hrun & Hk & Htexts & _).
  assert (length frames = S k) as Hlen.
  { apply (f_equal length) in Htexts.
    by rewrite !length_fmap, length_seq in Htexts. }
  exists frames. split; [done |]. split; [lia |].
  intros i f Hf.
  assert ((frame_text <$> frames) !! i = Some (frame_text f)) as Hi
    by (by rewrite list_lookup_fmap, Hf).
  rewrite Htexts, list_lookup_fmap in Hi.
  apply lookup_lt_Some in Hf.
  rewrite lookup_seq_lt in Hi by lia. by injection Hi as <-.
Qed.

(** X12. The first stability test compares the two seeded grids with each
    other, not a grid with its successor: with a limit of at least one
    generation, [run_game] prints a single frame if and only if the grid
    drawn first and the grid drawn second are equal, whether or not that
    pattern is stable. *)
Theorem run_game_single_frame_iff_equal_seeds randint rows cols generations :
  1 ≤ generations →
  ∃ frames,
    run_game randint rows cols generations = Ok frames ∧
    (length frames = 1%nat ↔
     drawn_grid randint rows cols 0 =
       drawn_grid randint rows cols (Z.to_nat rows * Z.to_nat cols)).
Proof.
  intros Hgen.
  destruct (run_game_trace randint rows cols generations)
    as (frames & k & Hrun & Hk & Htexts & Hzero & Hsame & _).
  assert (length frames = S k) as Hlen.
  { apply (f_equal length) in Htexts.
    by rewrite !length_fmap, length_seq in Htexts. }
  exists frames. split; [done |]. rewrite Hlen. split.
  - intros [= ->]. by apply Hzero.
  - intros Heq. by rewrite (Hsame Heq).
Qed.

Lemma run_game_single_frame_iff_equal_seeds_witness :
  ∃ frames,
    run_game (λ _, 0) 10 10 3 = Ok frames ∧
    (length frames = 1%nat ↔
     drawn_grid (λ _, 0) 10 10 0 =
       drawn_grid (λ _, 0) 10 10 (Z.to_nat 10 * Z.to_nat 10)).
Proof.
  apply (run_game_single_frame_iff_equal_seeds (λ _, 0) 10 10 3). lia.
Defined.

(** X13. A run that prints at least two frames and stops before the limit
    has reached a still life: the grid of its last frame is its own next
    generation, and equals the grid of the frame before it. *)
Theorem run_game_stops_early_on_still_life randint rows cols generations :
  1 ≤ generations →
  ∃ frames,
    run_game randint rows cols generations = Ok frames ∧
    (2 ≤ length frames ≤ Z.to_nat generations →
     generation rows cols (drawn_grid randint rows cols 0)
       (length frames - 1) =
     generation rows cols (drawn_grid randint rows cols 0)
       (length frames - 2) ∧
     next_snapshot
       (generation rows cols (drawn_grid randint rows cols 0)
          (length frames - 1)) rows cols =
     generation rows cols (drawn_grid randint rows cols 0)
       (length frames - 1))%nat.
Proof.
  intros Hgen.
  destruct (run_game_trace randint rows cols generations)
    as (frames & k & Hrun & Hk & Htexts & _ & _ & Hstill).
  assert (length frames = S k) as Hlen.
  { apply (f_equal length) in Htexts.
    by rewrite !length_fmap, length_seq in Htexts. }
  exists frames. split; [done |]. rewrite Hlen. intros Hrange.
  replace (S k - 1)%nat with k by lia.
  replace (S k - 2)%nat with (k - 1)%nat by lia.
  assert (generation rows cols (drawn_grid randint rows cols 0) k =
          generation rows cols (drawn_grid randint rows cols 0) (k - 1))
    as Heq by (apply Hstill; lia).
  split; [done |].
  rewrite Heq at 1.
  replace k with (S (k - 1)) at 2 by lia. done.
Qed.

Lemma run_game_stops_early_on_still_life_witness :
  ∃ frames,
    run_game one_cell_draws 10 10 5 = Ok frames ∧
    length frames = 3%nat ∧
    next_snapshot (generation 10 10 (drawn_grid one_cell_draws 10 10 0) 2)
      10 10 =
    generation 10 10 (drawn_grid one_cell_draws 10 10 0) 2.
Proof.
  destruct (run_game_stops_early_on_still_life one_cell_draws 10 10 5)
    as (frames & Hrun & Hstill); [lia |].
  exists frames. split; [exact Hrun |].
  assert (length frames = 3%nat) as Hlen.
  { assert (length <$> Some frames = Some 3%nat) as Hl;
      [| by injection Hl].
    assert (Some frames =
            match run_game one_cell_draws 10 10 5 with
            | Ok fs => Some fs
            | Raise _ => None
            end) as -> by (by rewrite Hrun).
    vm_compute. reflexivity. }
  split; [exact Hlen |].
  rewrite Hlen in Hstill.
  assert (2 ≤ 3 ≤ Z.to_nat 5)%nat as Hrange by lia.
  exact (proj2 (Hstill Hrange)).
Defined.

(** When every draw is 0 both seeded grids are all alive: the run prints one
    frame and stops, although the grid shown is not stable (it would be all
    dead one generation later). *)
Example run_game_equal_seeds_not_stable :
  ∃ frames, run_game (λ _, 0) 10 10 3 = Ok frames ∧
            length frames = 1%nat ∧
            drawn_grid (λ _, 0) 10 10 0 = uniform 10 10 1 ∧
            next_snapshot (drawn_grid (λ _, 0) 10 10 0) 10 10
              = uniform 10 10 0.
Proof.
  eexists. split; [vm_compute; reflexivity |].
  split; [vm_compute; reflexivity |]. split; vm_compute; reflexivity.
Qed.

Lemma run_game_labels_witness :
  ∃ frames, run_game one_cell_draws 10 10 1 = Ok frames ∧
            (frame_generation <$> frames = seqZ 1 1 ++ [1]
             ∨ ∃ n, 1 ≤ n ≤ 1 ∧ frame_generation <$> frames = seqZ 1 n).
Proof. apply (run_game_labels one_cell_draws 10 10 1). lia. Defined.

(** ** Eight distinct neighbours *)

Lemma wrap_inj n r i i' :
  3 ≤ n → -1 ≤ i ≤ 1 → -1 ≤ i' ≤ 1 →
  (r + i) `mod` n = (r + i') `mod` n → i = i'.
Proof.
  intros Hn Hi Hi' Heq.
  assert ((i - i') `mod` n = 0) as Hdiff.
  { replace (i - i') with ((r + i) - (r + i')) by lia.
    rewrite <- Zminus_mod_idemp_l, Heq, Zminus_mod_idemp_l.
    rewrite Z.sub_diag. apply Z.mod_0_l. lia. }
  destruct (decide (0 ≤ i - i')) as [Hpos | Hneg].
  - rewrite Z.mod_small in Hdiff by lia. lia.
  - rewrite <- (Z_mod_plus_full (i - i') 1 n) in Hdiff.
    rewrite Z.mod_small in Hdiff by lia. lia.
Qed.

Lemma offsets_range d : d ∈ offsets → -1 ≤ d.1 ≤ 1 ∧ -1 ≤ d.2 ≤ 1.
Proof.
  unfold offsets. rewrite !elem_of_cons, elem_of_nil.
  intros [-> | [-> | [-> | [-> | [-> | [-> | [-> | [-> | []]]]]]]]];
    cbn; lia.
Qed.

(** X15. On a grid with at least 3 rows and 3 columns, the sizes that the
    prompts of [run_game] allow, the eight positions that
    [get_live_neighbors] visits are pairwise distinct and none of them is the
    cell itself: its result is the number of distinct live cells around the
    cell. *)
Theorem get_live_neighbors_counts_distinct_cells
    h (g : grid) rows cols row col :
  3 ≤ rows → 3 ≤ cols →
  shape rows cols (rows_of h g) → binary (rows_of h g) →
  NoDup (neighbor_positions rows cols row col) ∧
  ((row `mod` rows, col `mod` cols) ∉ neighbor_positions rows cols row col) ∧
  (get_live_neighbors h row col rows cols g =
     Ok (Z.of_nat (alive_among (rows_of h g)
                     (neighbor_positions rows cols row col)))).
Proof.
  intros Hrows Hcols Hshape Hbin. split; [| split].
  - unfold neighbor_positions. apply NoDup_fmap_2_strong.
    + intros [i j] [i' j'] Hd Hd' [= Hr Hc].
      apply offsets_range in Hd, Hd'. cbn in *.
      apply wrap_inj in Hr; [| lia..]. apply wrap_inj in Hc; [| lia..].
      by subst.
    + unfold offsets. compute_done.
  - unfold neighbor_positions. intros Hin.
    apply list_elem_of_fmap in Hin as ([i j] & [= Hr Hc] & Hd).
    pose proof (offsets_range _ Hd) as [Hi Hj]. cbn in *.
    rewrite <- (Z.add_0_r row) in Hr at 1.
    rewrite <- (Z.add_0_r col) in Hc at 1.
    apply wrap_inj in Hr; [| lia..]. apply wrap_inj in Hc; [| lia..].
    subst. revert Hd. unfold offsets.
    rewrite !elem_of_cons, elem_of_nil.
    intros [H | [H | [H | [H | [H | [H | [H | [H | []]]]]]]]];
      discriminate H.
  - rewrite (get_live_neighbors_sum h g rows cols Hshape) by lia.
    by rewrite live_sum_alive_among.
Qed.

Lemma get_live_neighbors_counts_distinct_cells_witness :
  NoDup (neighbor_positions 3 3 0 2) ∧
  ((0 `mod` 3, 2 `mod` 3) ∉ neighbor_positions 3 3 0 2) ∧
  (get_live_neighbors (two_grids line3 junk3) 0 2 3 3 (first_grid line3) =
     Ok (Z.of_nat (alive_among
                     (rows_of (two_grids line3 junk3) (first_grid line3))
                     (neighbor_positions 3 3 0 2)))).
Proof.
  assert (shape 3 3 (rows_of (two_grids line3 junk3) (first_grid line3)))
    as Hshape by compute_done.
  assert (binary (rows_of (two_grids line3 junk3) (first_grid line3)))
    as Hbin by compute_done.
  apply (get_live_neighbors_counts_distinct_cells (two_grids line3 junk3)
           (first_grid line3) 3 3 0 2); [lia | lia | exact Hshape | exact Hbin].
Defined.

(** ** Prompts *)

Lemma get_integer_value_spec int prompt low high lines :
  ∀ written,
    match get_integer_value int prompt low high lines written with
    | Entered value rest out =>
        low ≤ value ≤ high ∧
        ∃ skipped line,
          lines = skipped ++ line :: rest ∧
          int line = Some value ∧
          Forall (rejected int low high) skipped ∧
          length out = (length written + 2 * length skipped + 1)%nat
    | EndOfInput out =>
        Forall (rejected int low high) lines ∧
        length out = (length written + 2 * length lines + 1)%nat
    end.
Proof.
  induction lines as [| line lines IH]; intros written;
    cbn [get_integer_value].
  - split; [done |]. rewrite length_app. cbn. lia.
  - destruct (int line) as [value |] eqn:Hline.
    + destruct (Z.ltb_spec value low) as [Hlow | Hlow]; cbn [orb].
      * specialize (IH (written ++ [prompt;
           "Input was not inside the bounds (value <= " +:+ pretty low
           +:+ " or value >= " +:+ pretty high +:+ ")."])).
        assert (rejected int low high line) as Hrej.
        { unfold rejected. rewrite Hline. by left. }
        destruct (get_integer_value _ _ _ _ _ _) as [v rest out | out].
        -- destruct IH as (Hv & skipped & l & -> & Hl & Hskip & Hlen).
           split; [done |]. exists (line :: skipped), l.
           split; [done |]. split; [done |]. split; [by constructor |].
           rewrite Hlen, length_app. cbn. lia.
        -- destruct IH as [Hall Hlen]. split; [by constructor |].
           rewrite Hlen, length_app. cbn. lia.
      * destruct (Z.gtb_spec value high) as [Hhigh | Hhigh].
        -- specialize (IH (written ++ [prompt;
             "Input was not inside the bounds (value <= " +:+ pretty low
             +:+ " or value >= " +:+ pretty high +:+ ")."])).
           assert (rejected int low high line) as Hrej.
           { unfold rejected. rewrite Hline. right. lia. }
           destruct (get_integer_value _ _ _ _ _ _) as [v rest out | out].
           ++ destruct IH as (Hv & skipped & l & -> & Hl & Hskip & Hlen).
              split; [done |]. exists (line :: skipped), l.
              split; [done |]. split; [done |]. split; [by constructor |].
              rewrite Hlen, length_app. cbn. lia.
           ++ destruct IH as [Hall Hlen]. split; [by constructor |].
              rewrite Hlen, length_app. cbn. lia.
        -- split; [lia |]. exists [], line. split; [done |].
           split; [done |]. split; [done |]. rewrite length_app. cbn. lia.
    + specialize (IH (written ++
                        [prompt; "Input was not a valid integer value."])).
      assert (rejected int low high line) as Hrej.
      { unfold rejected. by rewrite Hline. }
      destruct (get_integer_value _ _ _ _ _ _) as [v rest out | out].
      * destruct IH as (Hv & skipped & l & -> & Hl & Hskip & Hlen).
        split; [done |]. exists (line :: skipped), l.
        split; [done |]. split; [done |]. split; [by constructor |].
        rewrite Hlen, length_app. cbn. lia.
      * destruct IH as [Hall Hlen]. split; [by constructor |].
        rewrite Hlen, length_app. cbn. lia.
Qed.

(** X16. [get_integer_value] returns the first line typed that is an
    integer within [low .. high]: the value it returns lies within the
    bounds, every line before it was rejected (not an integer, or out of
    bounds) and answered by one message, and the lines after it are left
    unread.  It never returns when every line is rejected, in particular
    when [low > high]. *)
Theorem get_integer_value_returns_first_valid int prompt low high lines written :
  (∀ value rest out,
     get_integer_value int prompt low high lines written
       = Entered value rest out →
     low ≤ value ≤ high ∧
     ∃ skipped line,
       lines = skipped ++ line :: rest ∧
       int line = Some value ∧
       Forall (rejected int low high) skipped ∧
       length out = (length written + 2 * length skipped + 1)%nat) ∧
  (Forall (rejected int low high) lines ↔
   ∃ out, get_integer_value int prompt low high lines written
            = EndOfInput out) ∧
  (high < low →
   ∃ out, get_integer_value int prompt low high lines written
            = EndOfInput out).
Proof.
  pose proof (get_integer_value_spec int prompt low high lines written)
    as Hspec.
  assert (Forall (rejected int low high) lines ↔
          ∃ out, get_integer_value int prompt low high lines written
                   = EndOfInput out) as Hend.
  { destruct (get_integer_value int prompt low high lines written)
      as [v rest out | out].
    - destruct Hspec as (Hv & skipped & l & -> & Hl & _). split.
      + intros Hall. apply Forall_app in Hall as [_ Hall].
        apply Forall_cons in Hall as [Hrej _].
        unfold rejected in Hrej. rewrite Hl in Hrej. lia.
      + by intros [out' [=]].
    - destruct Hspec as [Hall _]. split; [by exists out | done]. }
  split; [| split; [done |]].
  - intros value rest out Heq. by rewrite Heq in Hspec.
  - intros Hempty. apply Hend. apply Forall_forall. intros line _.
    unfold rejected. destruct (int line); [lia | done].
Qed.

Lemma get_integer_value_returns_first_valid_witness :
  get_integer_value sample_int "rows: " 10 60 ["x"; "7"; "12"; "40"] []
    = Entered 12 ["40"]
        ["rows: "; "Input was not a valid integer value.";
         "rows: ";
         "Input was not inside the bounds (value <= 10 or value >= 60).";
         "rows: "] ∧
  10 ≤ 12 ≤ 60 ∧
  ∃ skipped line,
    ["x"; "7"; "12"; "40"] = skipped ++ line :: ["40"] ∧
    sample_int line = Some 12 ∧
    Forall (rejected sample_int 10 60) skipped.
Proof.
  assert (get_integer_value sample_int "rows: " 10 60
            ["x"; "7"; "12"; "40"] []
          = Entered 12 ["40"]
              ["rows: "; "Input was not a valid integer value.";
               "rows: ";
               "Input was not inside the bounds (value <= 10 or value >= 60).";
               "rows: "]) as Hrun by (vm_compute; reflexivity).
  split; [exact Hrun |].
  destruct (proj1 (get_integer_value_returns_first_valid sample_int "rows: "
                     10 60 ["x"; "7"; "12"; "40"] []) _ _ _ Hrun)
    as (Hv & skipped & line & Hlines & Hline & Hskip & _).
  split; [exact Hv |]. exists skipped, line.
  split; [exact Hlines |]. split; [exact Hline | exact Hskip].
Defined.



(** ** The console is wide enough *)

Lemma pretty_N_go_length (d : nat) :
  ∀ (x : N) s,
    (x < 10 ^ N.of_nat d)%N →
    (String.length (pretty_N_go x s) ≤ String.length s + d)%nat.
Proof.
  induction d as [| d IH]; intros x s Hx.
  - assert (x = 0%N) as -> by (cbn in Hx; lia).
    rewrite pretty_N_go_0. lia.
  - destruct (decide (x = 0%N)) as [-> | Hpos].
    + rewrite pretty_N_go_0. lia.
    + rewrite pretty_N_go_step by lia.
      etransitivity; [apply IH |]; [| cbn [String.length]; lia].
      rewrite Nat2N.inj_succ, N.pow_succ_r' in Hx.
      apply N.Div0.div_lt_upper_bound. lia.
Qed.

Lemma pretty_length_generation n :
  1 ≤ n ≤ 100000 → (String.length (pretty n) ≤ 6)%nat.
Proof.
  intros Hn. destruct n as [| p | p]; [lia | | lia].
  unfold pretty, pretty_Z, pretty, pretty_positive, pretty, pretty_N.
  rewrite decide_False by done.
  apply (pretty_N_go_length 6 (N.pos p) ""). cbn. lia.
Qed.

Lemma title_length n :
  1 ≤ n ≤ 100000 → (String.length (title n) ≤ 60)%nat.
Proof.
  intros Hn. unfold title. rewrite !string_length_app.
  pose proof (pretty_length_generation n Hn). cbn [String.length]. lia.
Qed.

Lemma print_rows_from h rows cols (g : grid) (start : string) :
  shape rows cols (rows_of h g) →
  for_each (range 0 rows) (λ row output_str,
      output_str <~ for_each (range 0 cols) (λ col output_str,
          v <~ load h g row col;
          if v =? 0 then Ok (output_str +:+ ". ")
          else Ok (output_str +:+ "@ ")) output_str;
      Ok (output_str +:+ end_of_line)) start
    = Ok (start +:+ picture (rows_of h g)).
Proof.
  intros Hshape.
  rewrite (for_each_pure (range 0 rows) _
             (λ s r, s +:+ picture_line
                             ((λ c, cell (rows_of h g) r c) <$> range 0 cols))).
  - f_equal.
    rewrite <- (string_app_nil_r (foldl _ _ _)), foldl_append. f_equal.
    transitivity
      (picture ((λ r, (λ c, cell (rows_of h g) r c) <$> range 0 cols)
                  <$> range 0 rows)).
    + unfold picture. by rewrite foldr_fmap.
    + by rewrite (snapshot_cells rows cols).
  - intros r out Hr. apply elem_of_seqZ in Hr.
    rewrite (for_each_pure (range 0 cols) _
               (λ s c, s +:+ glyph (cell (rows_of h g) r c))).
    + cbn [bind]. f_equal. rewrite foldl_append.
      unfold picture_line. by rewrite foldr_fmap.
    + intros c s Hc. apply elem_of_seqZ in Hc.
      rewrite (load_in_range h g rows cols Hshape) by lia. cbn [bind].
      unfold glyph. by destruct (_ =? 0).
Qed.

(** X18. The console that [resize_console] asks for is wide enough for what
    [print_grid] writes.  On Windows and on Linux the request is for
    [2 * max(cols, 32)] columns, never fewer than 64.  The output of
    [print_grid] is its title line, then one line of [2 * cols] characters
    per row, each line ended by two end-of-line characters, then a space;
    for a generation number from 1 to 100000 the title has at most 60
    characters, so no line is longer than the width asked for. *)
Theorem frame_fits_console platform h rows cols (g : grid) generation :
  shape rows cols (rows_of h g) → 0 ≤ cols → 1 ≤ generation ≤ 100000 →
  (startswith "win" platform = true →
   resize_console platform rows cols =
     System ("mode con: cols=" +:+ pretty (2 * Z.max cols 32)
             +:+ " lines=" +:+ pretty (rows + 5))) ∧
  (startswith "win" platform = false →
   startswith "linux" platform = true →
   resize_console platform rows cols =
     Write (escape +:+ "[8;" +:+ pretty (rows + 3) +:+ ";"
            +:+ pretty (2 * Z.max cols 32) +:+ "t")) ∧
  print_grid_output h rows cols g generation =
    Ok (title generation +:+ end_of_line
        +:+ picture (rows_of h g) +:+ " ") ∧
  Z.of_nat (String.length (title generation)) ≤ 60 ∧
  60 < 2 * Z.max cols 32 ∧
  Forall (λ rw, Z.of_nat (String.length (picture_line rw)) = 2 * cols + 2 ∧
                2 * cols ≤ 2 * Z.max cols 32)
         (rows_of h g).
Proof.
  intros Hshape Hcols Hgen.
  assert ((if cols <? 32 then 32 else cols) + (if cols <? 32 then 32 else cols)
          = 2 * Z.max cols 32) as Hwidth.
  { destruct (Z.ltb_spec cols 32); lia. }
  split; [| split; [| split; [| split; [| split]]]].
  - intros Hwin. unfold resize_console. by rewrite Hwin, Hwidth.
  - intros Hwin Hlinux. unfold resize_console.
    by rewrite Hwin, Hlinux, Hwidth.
  - unfold print_grid_output.
    rewrite (print_rows_from h rows cols g _ Hshape). cbn [bind].
    change ("" +:+ ?s) with s. by rewrite !string_app_assoc.
  - pose proof (title_length generation Hgen). lia.
  - lia.
  - destruct Hshape as [_ Hrows]. eapply Forall_impl; [exact Hrows |].
    intros rw Hrw. cbn beta. rewrite picture_line_length, Hrw. lia.
Qed.

Lemma frame_fits_console_witness :
  resize_console "linux" 10 10 =
    Write (escape +:+ "[8;13;64t") ∧
  resize_console "win32" 10 40 = System "mode con: cols=80 lines=15" ∧
  print_grid_output (two_grids line3 junk3) 3 3 (first_grid line3) 100000 =
    Ok (title 100000 +:+ end_of_line
        +:+ picture (rows_of (two_grids line3 junk3) (first_grid line3))
        +:+ " ") ∧
  Z.of_nat (String.length (title 100000)) ≤ 60.
Proof.
  assert (shape 3 3 (rows_of (two_grids line3 junk3) (first_grid line3)))
    as Hshape by compute_done.
  destruct (frame_fits_console "linux"
              (two_grids line3 junk3) 3 3 (first_grid line3) 100000 Hshape)
    as (_ & _ & Hout & Htitle & _); [lia | lia |].
  split; [vm_compute; reflexivity |]. split; [vm_compute; reflexivity |].
  split; [exact Hout | exact Htitle].
Defined.
